(** * RAW-image-denoising: the SimpleNet encoder-decoder of [model.py]

    A shallow embedding of [src/model.py] and of the part of the tensor
    library it calls.

    - Tensors are 4-dimensional (batch, channel, height, width) arrays stored
      row-major in a flat list.  Scalars are exact integers: rounding, NaN
      and infinities of IEEE arithmetic are outside the model.
    - Tensors live in a store and are named by their address, because the
      source rebinds names to freshly computed tensors, aliases the input
      ([branch = x]) and updates tensors in place ([M.ReLU(inplace=True)],
      [x += branch]).
    - [forward] methods run in a state-and-exception monad over the store.
      [__init__] methods run in a second monad that hands out the learnable
      parameters in construction order and can raise. *)

From Stdlib Require Import ZArith List Lia Bool PeanoNat.
From Stdlib Require Import Zify ZifyNat.
From stdpp Require Import base list.
Import ListNotations.

Ltac Zify.zify_post_hook ::= Z.div_mod_to_equations.

Set Default Proof Using "Type".

(** ** Exceptions and results *)

Inductive exn : Type :=
| AssertionError   (* a failed [assert] *)
| RuntimeError     (* shape errors raised by the tensor library *)
| ValueError       (* constructor argument rejected by the library *)
| ReferenceError.  (* an address that names no tensor *)

Inductive result (A : Type) : Type :=
| Ok (a : A)
| Err (e : exn).
Arguments Ok {A} a.
Arguments Err {A} e.

Class Monad (m : Type -> Type) : Type := {
  ret : forall {A}, A -> m A;
  bind : forall {A B}, m A -> (A -> m B) -> m B
}.

Declare Scope monad_scope.
Delimit Scope monad_scope with monad.
Notation "x <- c ;; k" := (bind c (fun x => k))
  (at level 100, c at next level, right associativity) : monad_scope.
Notation "c ;;; k" := (bind c (fun _ => k))
  (at level 100, right associativity) : monad_scope.
Local Open Scope monad_scope.

#[export] Instance Monad_result : Monad result := {
  ret := fun A a => Ok a;
  bind := fun A B r k => match r with Ok a => k a | Err e => Err e end
}.

(** ** Tensors *)

Record Shape : Type := mkShape { sB : nat; sC : nat; sH : nat; sW : nat }.

Record Tensor : Type := mkTensor { shape : Shape; data : list Z }.

Definition numel (s : Shape) : nat := sB s * sC s * sH s * sW s.


Definition offset (s : Shape) (b c h w : nat) : nat :=
  ((b * sC s + c) * sH s + h) * sW s + w.

Definition tget (t : Tensor) (b c h w : nat) : Z :=
  nth (offset (shape t) b c h w) (data t) 0%Z.

(** The tensor of shape [s] whose entry at [(b, c, h, w)] is [f b c h w]. *)
Definition tabulate (s : Shape) (f : nat -> nat -> nat -> nat -> Z) : Tensor :=
  {| shape := s;
     data :=
       flat_map (fun b =>
         flat_map (fun c =>
           flat_map (fun h =>
             map (fun w => f b c h w) (seq 0 (sW s)))
           (seq 0 (sH s)))
         (seq 0 (sC s)))
       (seq 0 (sB s)) |}.

Definition sumn (n : nat) (f : nat -> Z) : Z :=
  fold_right Z.add 0%Z (map f (seq 0 n)).

Definition Shape_eqb (s1 s2 : Shape) : bool :=
  (sB s1 =? sB s2) && (sC s1 =? sC s2) && (sH s1 =? sH s2) && (sW s1 =? sW s2).

(** *** Element-wise operations of the tensor library *)

(** [torch.relu]: [max(0, x)] on every entry. *)
Definition tensor_relu (t : Tensor) : Tensor :=
  {| shape := shape t; data := map (Z.max 0) (data t) |}.

(** Broadcasting of one dimension: equal sizes, or one of them is 1. *)
Definition broadcast_dim (a b : nat) : option nat :=
  if a =? b then Some a
  else if a =? 1 then Some b
  else if b =? 1 then Some a
  else None.

Definition broadcast_shape (s1 s2 : Shape) : option Shape :=
  match broadcast_dim (sB s1) (sB s2), broadcast_dim (sC s1) (sC s2),
        broadcast_dim (sH s1) (sH s2), broadcast_dim (sW s1) (sW s2) with
  | Some b, Some c, Some h, Some w => Some (mkShape b c h w)
  | _, _, _, _ => None
  end.

(** Read [t] as if expanded to a larger shape: a dimension of size 1 is
    repeated. *)
Definition tget_expand (t : Tensor) (b c h w : nat) : Z :=
  let s := shape t in
  tget t (if sB s =? 1 then 0 else b) (if sC s =? 1 then 0 else c)
         (if sH s =? 1 then 0 else h) (if sW s =? 1 then 0 else w).

(** [x + y]: element-wise on equal shapes, broadcast otherwise, an error
    when the shapes cannot be broadcast. *)
Definition tensor_add (x y : Tensor) : result Tensor :=
  if Shape_eqb (shape x) (shape y) then
    Ok {| shape := shape x; data := zip_with Z.add (data x) (data y) |}
  else
    match broadcast_shape (shape x) (shape y) with
    | Some s => Ok (tabulate s (fun b c h w =>
                      (tget_expand x b c h w + tget_expand y b c h w)%Z))
    | None => Err RuntimeError
    end.

(** [x += y] computes the same sum but must fit the shape of [x]. *)
Definition tensor_iadd (x y : Tensor) : result Tensor :=
  if Shape_eqb (shape x) (shape y) then
    Ok {| shape := shape x; data := zip_with Z.add (data x) (data y) |}
  else
    match broadcast_shape (shape x) (shape y) with
    | Some s =>
        if Shape_eqb s (shape x) then
          Ok (tabulate s (fun b c h w =>
                (tget x b c h w + tget_expand y b c h w)%Z))
        else Err RuntimeError
    | None => Err RuntimeError
    end.

(** ** The store and the [forward] monad *)

Definition loc : Type := nat.
Definition store : Type := list Tensor.

(** A computation may change the store and then return or raise; the store
    survives an exception. *)
Definition Fwd (A : Type) : Type := store -> result A * store.

#[export] Instance Monad_Fwd : Monad Fwd := {
  ret := fun A a s => (Ok a, s);
  bind := fun A B c k s =>
    match c s with
    | (Ok a, s') => k a s'
    | (Err e, s') => (Err e, s')
    end
}.

Definition raise {A : Type} (e : exn) : Fwd A := fun s => (Err e, s).

Definition lift {A : Type} (r : result A) : Fwd A := fun s => (r, s).

Definition read (x : loc) : Fwd Tensor :=
  fun s => match s !! x with
           | Some t => (Ok t, s)
           | None => (Err ReferenceError, s)
           end.

(** A new tensor gets the next free address. *)
Definition alloc (t : Tensor) : Fwd loc :=
  fun s => (Ok (length s), s ++ [t]).

Definition write (x : loc) (t : Tensor) : Fwd unit :=
  fun s => (Ok tt, <[x := t]> s).

(** [assert b] *)
Definition assert_ (b : bool) : Fwd unit :=
  if b then ret tt else raise AssertionError.

(** [x.shape[1]] *)
Definition shape1 (x : loc) : Fwd nat :=
  t <- read x ;; ret (sC (shape t)).

(** [x + y] allocates its result. *)
Definition add (x y : loc) : Fwd loc :=
  a <- read x ;; b <- read y ;; r <- lift (tensor_add a b) ;; alloc r.

(** [x += y] overwrites the tensor named [x] and returns the same name. *)
Definition iadd (x y : loc) : Fwd loc :=
  a <- read x ;; b <- read y ;; r <- lift (tensor_iadd a b) ;;
  write x r ;;; ret x.

(** [for _ in range(n): x = body(x)] *)
Fixpoint for_range (n : nat) (body : loc -> Fwd loc) (x : loc) : Fwd loc :=
  match n with
  | 0 => ret x
  | S n' => x' <- body x ;; for_range n' body x'
  end.

(** ** Parameters and the constructor monad *)

(** A learnable parameter: its identity (its rank in construction order)
    and its entries.  A bias vector uses the first index only. *)
Record Param : Type := mkParam {
  pid : nat;
  pdata : nat -> nat -> nat -> nat -> Z
}.

(** The values every parameter receives, by identity: the initialiser, or
    any later state of training. *)
Definition Init : Type := nat -> nat -> nat -> nat -> nat -> Z.

(** A constructor reads parameter values from the initialiser, counts the
    parameters created so far, and may raise. *)
Definition Ctor (A : Type) : Type := Init -> nat -> result A * nat.

#[export] Instance Monad_Ctor : Monad Ctor := {
  ret := fun A a _ n => (Ok a, n);
  bind := fun A B c k init n =>
    match c init n with
    | (Ok a, n') => k a init n'
    | (Err e, n') => (Err e, n')
    end
}.

Definition craise {A : Type} (e : exn) : Ctor A := fun _ n => (Err e, n).

Definition new_parameter : Ctor Param :=
  fun init n => (Ok {| pid := n; pdata := init n |}, S n).

Definition Param_zero (p : Param) : Prop :=
  forall a b c d, pdata p a b c d = 0%Z.

(** ** The library's layers: [torch.nn.Conv2d], [ConvTranspose2d], [ReLU]

    These classes are library code.  They are modelled from their
    documented contract: the constructor checks of [_ConvNd.__init__], the
    shape checks and the output-size formulas of the convolutions, and the
    sums they compute (dilation 1, zero padding). *)

(** Entry [(h, w)] of channel [c] of the zero-padded input, in padded
    coordinates. *)
Definition tget_pad (x : Tensor) (p b c h w : nat) : Z :=
  if (p <=? h) && (h - p <? sH (shape x)) && (p <=? w) && (w - p <? sW (shape x))
  then tget x b c (h - p) (w - p)
  else 0%Z.

(** The convolutions accept an empty batch or zero channels, and reject an
    input that is empty in a spatial dimension only. *)
Definition spatially_empty (s : Shape) : bool :=
  negb ((sB s =? 0) || (sC s =? 0)) && ((sH s =? 0) || (sW s =? 0)).

Module Conv2d.

Record t : Type := mk {
  in_channels : nat;
  out_channels : nat;
  kernel_size : nat;
  stride : nat;
  padding : nat;
  groups : nat;
  weight : Param;            (* shape (out, in / groups, k, k) *)
  bias : option Param        (* shape (out), absent with [bias=False] *)
}.

(** The constructor checks of [_ConvNd.__init__]: [groups] is positive
    and divides both channel counts.  Then the weight and, with
    [bias=True], the bias are created. *)
Definition init (cin cout k s p g : nat) (with_bias : bool) : Ctor t :=
  if g =? 0 then craise ValueError
  else if negb (cin mod g =? 0) then craise ValueError
  else if negb (cout mod g =? 0) then craise ValueError
  else
    w <- new_parameter ;;
    b <- (if with_bias then q <- new_parameter ;; ret (Some q)
          else ret None) ;;
    ret (mk cin cout k s p g w b).

Definition out_size (n k s p : nat) : nat := (n + 2 * p - k) / s + 1.

Definition bias_at (c : t) (co : nat) : Z :=
  match bias c with
  | Some q => pdata q co 0 0 0
  | None => 0%Z
  end.

(** Output entry [(b, co, i, j)]: the bias plus the products of the
    kernel with the window of the input channels of the group of [co]. *)
Definition entry (c : t) (x : Tensor) (b co i j : nat) : Z :=
  let cpg := in_channels c / groups c in
  let g := co / (out_channels c / groups c) in
  (bias_at c co +
   sumn cpg (fun ci =>
     sumn (kernel_size c) (fun kh =>
       sumn (kernel_size c) (fun kw =>
         pdata (weight c) co ci kh kw *
         tget_pad x (padding c) b (g * cpg + ci)
                  (i * stride c + kh) (j * stride c + kw)))))%Z.

(** The forward checks of the library, in its order: the input has the
    channels the weight expects; the stride is positive; the padded input
    is not smaller than the kernel (the library's message: kernel size
    can't be greater than actual input size); an input without elements
    has an empty batch or zero channels. *)
Definition apply (c : t) (x : Tensor) : result Tensor :=
  let s := shape x in
  if negb (sC s =? in_channels c) then Err RuntimeError
  else if stride c =? 0 then Err RuntimeError
  else if (sH s + 2 * padding c <? kernel_size c)
          || (sW s + 2 * padding c <? kernel_size c) then Err RuntimeError
  else if spatially_empty s then Err RuntimeError
  else
    Ok (tabulate
          (mkShape (sB s) (out_channels c)
             (out_size (sH s) (kernel_size c) (stride c) (padding c))
             (out_size (sW s) (kernel_size c) (stride c) (padding c)))
          (entry c x)).

(** Calling the layer allocates a new tensor. *)
Definition forward (c : t) (x : loc) : Fwd loc :=
  v <- read x ;; r <- lift (apply c v) ;; alloc r.

Definition params (c : t) : list nat :=
  pid (weight c) :: match bias c with Some q => [pid q] | None => [] end.

Definition zero (c : t) : Prop :=
  Param_zero (weight c) /\
  match bias c with Some q => Param_zero q | None => True end.

End Conv2d.

Module ConvTranspose2d.

(** Padding 0, output padding 0, one group, with bias: the defaults the
    source leaves in place. *)
Record t : Type := mk {
  in_channels : nat;
  out_channels : nat;
  kernel_size : nat;
  stride : nat;
  weight : Param;            (* shape (in, out, k, k) *)
  bias : Param               (* shape (out) *)
}.

Definition init (cin cout k s : nat) : Ctor t :=
  w <- new_parameter ;;
  b <- new_parameter ;;
  ret (mk cin cout k s w b).

(** [(n - 1) * s + k], written without subtraction below zero. *)
Definition out_size (n k s : nat) : nat := n * s + k - s.

(** Input entry [(a, b)] contributes to output entry [(i, j)] through
    kernel entry [(kh, kw)] when [i = a * s + kh] and [j = b * s + kw]. *)
Definition tap (x : Tensor) (s b ci i j kh kw : nat) : Z :=
  if (kh <=? i) && ((i - kh) mod s =? 0) && ((i - kh) / s <? sH (shape x))
     && (kw <=? j) && ((j - kw) mod s =? 0) && ((j - kw) / s <? sW (shape x))
  then tget x b ci ((i - kh) / s) ((j - kw) / s)
  else 0%Z.

Definition entry (c : t) (x : Tensor) (b co i j : nat) : Z :=
  (pdata (bias c) co 0 0 0 +
   sumn (in_channels c) (fun ci =>
     sumn (kernel_size c) (fun kh =>
       sumn (kernel_size c) (fun kw =>
         tap x (stride c) b ci i j kh kw *
         pdata (weight c) ci co kh kw))))%Z.

(** The forward checks of the library: the input has [in_channels]
    channels; the stride is positive; an input without elements has an
    empty batch or zero channels (the library's message: only zero batch
    or zero channel inputs are supported); the output size is not
    negative. *)
Definition apply (c : t) (x : Tensor) : result Tensor :=
  let s := shape x in
  if negb (sC s =? in_channels c) then Err RuntimeError
  else if stride c =? 0 then Err RuntimeError
  else if spatially_empty s then Err RuntimeError
  else if (sH s * stride c + kernel_size c <? stride c)
          || (sW s * stride c + kernel_size c <? stride c)
       then Err RuntimeError
  else
    Ok (tabulate
          (mkShape (sB s) (out_channels c)
             (out_size (sH s) (kernel_size c) (stride c))
             (out_size (sW s) (kernel_size c) (stride c)))
          (entry c x)).

Definition forward (c : t) (x : loc) : Fwd loc :=
  v <- read x ;; r <- lift (apply c v) ;; alloc r.

End ConvTranspose2d.

Module ReLU.

Record t : Type := mk { inplace : bool }.

(** In place, the input tensor is overwritten and its own name is
    returned; otherwise the result is a new tensor. *)
Definition forward (r : t) (x : loc) : Fwd loc :=
  v <- read x ;;
  if inplace r then write x (tensor_relu v) ;;; ret x
  else alloc (tensor_relu v).

End ReLU.

(** ** [model.py] *)

(** [DepthwiseConv]: one filter per channel ([groups = in_channels]), no
    bias. *)
Definition DepthwiseConv (in_channels kernel_size stride padding : nat)
  : Ctor Conv2d.t :=
  Conv2d.init in_channels in_channels kernel_size stride padding
    in_channels false.

(** [PointwiseConv]: a 1x1 convolution with bias. *)
Definition PointwiseConv (in_channels out_channels : nat) : Ctor Conv2d.t :=
  Conv2d.init in_channels out_channels 1 1 0 1 true.

Module CovSepBlock.

Record t : Type := mk { dc : Conv2d.t; pc : Conv2d.t }.

(** The source's defaults are [kernel_size=5, stride=1, padding=0]; every
    call below passes all three. *)
Definition init (in_channels out_channels kernel_size stride padding : nat)
  : Ctor t :=
  dc <- DepthwiseConv in_channels kernel_size stride padding ;;
  pc <- PointwiseConv in_channels out_channels ;;
  ret (mk dc pc).

Definition forward (m : t) (x : loc) : Fwd loc :=
  x <- Conv2d.forward (dc m) x ;;
  x <- Conv2d.forward (pc m) x ;;
  ret x.

(** The function of tensors that [forward] computes. *)
Definition eval (m : t) (x : Tensor) : result Tensor :=
  x <- Conv2d.apply (dc m) x ;;
  x <- Conv2d.apply (pc m) x ;;
  ret x.

Definition params (m : t) : list nat :=
  Conv2d.params (dc m) ++ Conv2d.params (pc m).

Definition zero (m : t) : Prop := Conv2d.zero (dc m) /\ Conv2d.zero (pc m).

End CovSepBlock.

Module Encoder.

Record t : Type := mk {
  sepconv : CovSepBlock.t;
  activate : ReLU.t;
  sepconv2 : CovSepBlock.t;
  proj : option CovSepBlock.t
}.

Definition init (in_channels out_channels : nat) : Ctor t :=
  sepconv <- CovSepBlock.init in_channels (out_channels / 4) 5 1 2 ;;
  let activate := ReLU.mk true in
  sepconv2 <- CovSepBlock.init (out_channels / 4) out_channels 5 1 2 ;;
  proj <- (if negb (in_channels =? out_channels)
           then p <- CovSepBlock.init in_channels out_channels 3 1 1 ;;
                ret (Some p)
           else ret None) ;;
  ret (mk sepconv activate sepconv2 proj).

Definition forward (m : t) (x : loc) : Fwd loc :=
  branch <- match proj m with
            | Some p => CovSepBlock.forward p x
            | None => ret x
            end ;;
  x <- CovSepBlock.forward (sepconv m) x ;;
  x <- ReLU.forward (activate m) x ;;
  x <- CovSepBlock.forward (sepconv2 m) x ;;
  x <- iadd x branch ;;
  ReLU.forward (activate m) x.

Definition eval (m : t) (x : Tensor) : result Tensor :=
  branch <- match proj m with
            | Some p => CovSepBlock.eval p x
            | None => Ok x
            end ;;
  x <- CovSepBlock.eval (sepconv m) x ;;
  x <- CovSepBlock.eval (sepconv2 m) (tensor_relu x) ;;
  x <- tensor_iadd x branch ;;
  Ok (tensor_relu x).

Definition params (m : t) : list nat :=
  CovSepBlock.params (sepconv m) ++ CovSepBlock.params (sepconv2 m) ++
  match proj m with Some p => CovSepBlock.params p | None => [] end.

End Encoder.

Module Upsampling.

Record t : Type := mk { upsample : ConvTranspose2d.t }.

(** [kernel_size] defaults to 2 in the source. *)
Definition init (in_channels out_channels kernel_size : nat) : Ctor t :=
  upsample <- ConvTranspose2d.init in_channels out_channels kernel_size 2 ;;
  ret (mk upsample).

Definition forward (m : t) (x : loc) : Fwd loc :=
  ConvTranspose2d.forward (upsample m) x.

Definition eval (m : t) (x : Tensor) : result Tensor :=
  ConvTranspose2d.apply (upsample m) x.

End Upsampling.

Module Downsampling.

Record t : Type := mk {
  sepconv : CovSepBlock.t;
  activate : ReLU.t;
  sepconv2 : CovSepBlock.t;
  branchconv : CovSepBlock.t
}.

Definition init (in_channels out_channels : nat) : Ctor t :=
  sepconv <- CovSepBlock.init in_channels (out_channels / 4) 5 2 2 ;;
  let activate := ReLU.mk true in
  sepconv2 <- CovSepBlock.init (out_channels / 4) out_channels 5 1 2 ;;
  branchconv <- CovSepBlock.init in_channels out_channels 3 2 1 ;;
  ret (mk sepconv activate sepconv2 branchconv).

Definition forward (m : t) (x : loc) : Fwd loc :=
  let branch := x in
  x <- CovSepBlock.forward (sepconv m) x ;;
  x <- ReLU.forward (activate m) x ;;
  x <- CovSepBlock.forward (sepconv2 m) x ;;
  branch <- CovSepBlock.forward (branchconv m) branch ;;
  add x branch.

(** The two paths, separately. *)
Definition main_path (m : t) (x : Tensor) : result Tensor :=
  x <- CovSepBlock.eval (sepconv m) x ;;
  CovSepBlock.eval (sepconv2 m) (tensor_relu x).

Definition branch_path (m : t) (x : Tensor) : result Tensor :=
  CovSepBlock.eval (branchconv m) x.

Definition eval (m : t) (x : Tensor) : result Tensor :=
  let branch := x in
  x <- CovSepBlock.eval (sepconv m) x ;;
  x <- CovSepBlock.eval (sepconv2 m) (tensor_relu x) ;;
  branch <- CovSepBlock.eval (branchconv m) branch ;;
  tensor_add x branch.

End Downsampling.

Module Decoder.

Record t : Type := mk {
  sepconv : CovSepBlock.t;
  activate : ReLU.t;
  sepconv2 : CovSepBlock.t
}.

Definition init (in_channels out_channels : nat) : Ctor t :=
  sepconv <- CovSepBlock.init in_channels out_channels 3 1 1 ;;
  let activate := ReLU.mk true in
  sepconv2 <- CovSepBlock.init out_channels out_channels 3 1 1 ;;
  ret (mk sepconv activate sepconv2).

Definition forward (m : t) (x : loc) : Fwd loc :=
  let branch := x in
  x <- CovSepBlock.forward (sepconv m) x ;;
  x <- ReLU.forward (activate m) x ;;
  x <- CovSepBlock.forward (sepconv2 m) x ;;
  add x branch.

Definition eval (m : t) (x : Tensor) : result Tensor :=
  y <- CovSepBlock.eval (sepconv m) x ;;
  y <- CovSepBlock.eval (sepconv2 m) (tensor_relu y) ;;
  tensor_add y x.

Definition zero (m : t) : Prop :=
  CovSepBlock.zero (sepconv m) /\ CovSepBlock.zero (sepconv2 m).

End Decoder.

Module EncoderStage.

(** One [Encoder] and one [Downsampling] are constructed, whatever
    [num_encoder] is. *)
Record t : Type := mk {
  encoder : Encoder.t;
  downsampling : Downsampling.t;
  num : nat
}.

Definition init (in_channels out_channels num_encoder : nat) : Ctor t :=
  encoder <- Encoder.init out_channels out_channels ;;
  downsampling <- Downsampling.init in_channels out_channels ;;
  ret (mk encoder downsampling num_encoder).

Definition forward (m : t) (x : loc) : Fwd loc :=
  x <- Downsampling.forward (downsampling m) x ;;
  for_range (num m) (fun x => Encoder.forward (encoder m) x) x.

Fixpoint repeat_eval (n : nat) (e : Encoder.t) (x : Tensor) : result Tensor :=
  match n with
  | 0 => Ok x
  | S n' => y <- Encoder.eval e x ;; repeat_eval n' e y
  end.

Definition eval (m : t) (x : Tensor) : result Tensor :=
  y <- Downsampling.eval (downsampling m) x ;;
  repeat_eval (num m) (encoder m) y.

(** The block instances that [forward] applies after the downsampling,
    in order. *)
Definition applied (m : t) : list Encoder.t := repeat (encoder m) (num m).

End EncoderStage.

Module DecoderStage.

Record t : Type := mk {
  decoder : Decoder.t;
  upsampling : Upsampling.t;
  skipconnect : CovSepBlock.t;
  activate : ReLU.t
}.

Definition init (in_channels out_channels skip_in_channels : nat) : Ctor t :=
  decoder <- Decoder.init in_channels in_channels ;;
  upsampling <- Upsampling.init in_channels out_channels 2 ;;
  skipconnect <- CovSepBlock.init skip_in_channels out_channels 3 1 1 ;;
  let activate := ReLU.mk true in
  ret (mk decoder upsampling skipconnect activate).

Definition forward (m : t) (x : loc * loc) : Fwd loc :=
  let '(input, skip) := x in
  input <- Decoder.forward (decoder m) input ;;
  input <- Upsampling.forward (upsampling m) input ;;
  skip <- CovSepBlock.forward (skipconnect m) skip ;;
  skip <- ReLU.forward (activate m) skip ;;
  add input skip.

Definition eval (m : t) (x : Tensor * Tensor) : result Tensor :=
  let '(input, skip) := x in
  input <- Decoder.eval (decoder m) input ;;
  input <- Upsampling.eval (upsampling m) input ;;
  skip <- CovSepBlock.eval (skipconnect m) skip ;;
  tensor_add input (tensor_relu skip).

End DecoderStage.

(** [M.Sequential] over the two kinds of layer the source puts in one. *)
Module Sequential.

Inductive layer : Type :=
| LDecoder (d : Decoder.t)
| LConv2d (c : Conv2d.t).

Definition t : Type := list layer.

Definition layer_forward (l : layer) (x : loc) : Fwd loc :=
  match l with
  | LDecoder d => Decoder.forward d x
  | LConv2d c => Conv2d.forward c x
  end.

Fixpoint forward (m : t) (x : loc) : Fwd loc :=
  match m with
  | [] => ret x
  | l :: m' => x' <- layer_forward l x ;; forward m' x'
  end.

Definition layer_eval (l : layer) (x : Tensor) : result Tensor :=
  match l with
  | LDecoder d => Decoder.eval d x
  | LConv2d c => Conv2d.apply c x
  end.

Fixpoint eval (m : t) (x : Tensor) : result Tensor :=
  match m with
  | [] => Ok x
  | l :: m' => y <- layer_eval l x ;; eval m' y
  end.

Definition layer_zero (l : layer) : Prop :=
  match l with
  | LDecoder d => Decoder.zero d
  | LConv2d c => Conv2d.zero c
  end.

(** Every weight and every bias of every layer is zero. *)
Definition zero (m : t) : Prop := Forall layer_zero m.

End Sequential.

(** [assert x.shape[1] == n] *)
Definition assert_channels (x : loc) (n : nat) : Fwd unit :=
  c <- shape1 x ;; assert_ (c =? n).

Definition check_channels (x : Tensor) (n : nat) : result unit :=
  if sC (shape x) =? n then Ok tt else Err AssertionError.

Module SimpleNet.

Record t : Type := mk {
  conv : Conv2d.t;
  relu : ReLU.t;
  encoder_stage1 : EncoderStage.t;
  encoder_stage2 : EncoderStage.t;
  encoder_stage3 : EncoderStage.t;
  encoder_stage4 : EncoderStage.t;
  decoder_stage1 : DecoderStage.t;
  decoder_stage2 : DecoderStage.t;
  decoder_stage3 : DecoderStage.t;
  decoder_stage4 : DecoderStage.t;
  output_layer : Sequential.t
}.

Definition init : Ctor t :=
  conv <- Conv2d.init 4 16 3 1 1 1 true ;;
  let relu := ReLU.mk true in
  encoder_stage1 <- EncoderStage.init 16 64 1 ;;
  encoder_stage2 <- EncoderStage.init 64 128 1 ;;
  encoder_stage3 <- EncoderStage.init 128 256 3 ;;
  encoder_stage4 <- EncoderStage.init 256 512 3 ;;
  decoder_stage1 <- DecoderStage.init 512 64 256 ;;
  decoder_stage2 <- DecoderStage.init 64 32 128 ;;
  decoder_stage3 <- DecoderStage.init 32 32 64 ;;
  decoder_stage4 <- DecoderStage.init 32 16 16 ;;
  d <- Decoder.init 16 16 ;;
  c <- Conv2d.init 16 4 3 1 1 1 true ;;
  let output_layer := [Sequential.LDecoder d; Sequential.LConv2d c] in
  ret (mk conv relu encoder_stage1 encoder_stage2 encoder_stage3
          encoder_stage4 decoder_stage1 decoder_stage2 decoder_stage3
          decoder_stage4 output_layer).

Definition forward (m : t) (img : loc) : Fwd loc :=
  assert_channels img 4 ;;;
  pre <- Conv2d.forward (conv m) img ;;
  pre <- ReLU.forward (relu m) pre ;;
  assert_channels pre 16 ;;;
  first <- EncoderStage.forward (encoder_stage1 m) pre ;;
  assert_channels first 64 ;;;
  second <- EncoderStage.forward (encoder_stage2 m) first ;;
  assert_channels second 128 ;;;
  third <- EncoderStage.forward (encoder_stage3 m) second ;;
  assert_channels third 256 ;;;
  fourth <- EncoderStage.forward (encoder_stage4 m) third ;;
  assert_channels fourth 512 ;;;
  de_first <- DecoderStage.forward (decoder_stage1 m) (fourth, third) ;;
  assert_channels de_first 64 ;;;
  de_second <- DecoderStage.forward (decoder_stage2 m) (de_first, second) ;;
  assert_channels de_second 32 ;;;
  de_thrid <- DecoderStage.forward (decoder_stage3 m) (de_second, first) ;;
  assert_channels de_thrid 32 ;;;
  de_fourth <- DecoderStage.forward (decoder_stage4 m) (de_thrid, pre) ;;
  assert_channels de_fourth 16 ;;;
  output <- Sequential.forward (output_layer m) de_fourth ;;
  assert_channels output 4 ;;;
  add output img.

Definition eval (m : t) (img : Tensor) : result Tensor :=
  check_channels img 4 ;;;
  pre <- Conv2d.apply (conv m) img ;;
  let pre := tensor_relu pre in
  check_channels pre 16 ;;;
  first <- EncoderStage.eval (encoder_stage1 m) pre ;;
  check_channels first 64 ;;;
  second <- EncoderStage.eval (encoder_stage2 m) first ;;
  check_channels second 128 ;;;
  third <- EncoderStage.eval (encoder_stage3 m) second ;;
  check_channels third 256 ;;;
  fourth <- EncoderStage.eval (encoder_stage4 m) third ;;
  check_channels fourth 512 ;;;
  de_first <- DecoderStage.eval (decoder_stage1 m) (fourth, third) ;;
  check_channels de_first 64 ;;;
  de_second <- DecoderStage.eval (decoder_stage2 m) (de_first, second) ;;
  check_channels de_second 32 ;;;
  de_thrid <- DecoderStage.eval (decoder_stage3 m) (de_second, first) ;;
  check_channels de_thrid 32 ;;;
  de_fourth <- DecoderStage.eval (decoder_stage4 m) (de_thrid, pre) ;;
  check_channels de_fourth 16 ;;;
  output <- Sequential.eval (output_layer m) de_fourth ;;
  check_channels output 4 ;;;
  tensor_add output img.

End SimpleNet.

(** ** What a [forward] call does to the store

    [outcome S r]: the call ended in store [S] extended by its result, which
    it returns by name, or raised in store [S]. *)
Definition outcome (S : store) (r : result Tensor) : result loc * store :=
  match r with
  | Ok t => (Ok (length S), S ++ [t])
  | Err e => (Err e, S)
  end.

(** Started in [s], the computation [c] keeps every tensor of [base] and
    ends as [r] says. *)
Definition runs_on (base : store) (c : Fwd loc) (s : store)
  (r : result Tensor) : Prop :=
  exists S, base `prefix_of` S /\ c s = outcome S r.

Definition runs (c : Fwd loc) (s : store) (r : result Tensor) : Prop :=
  runs_on s c s r.

(** Two calls end alike: both raise the same exception, or both return a
    tensor and the two tensors are equal. *)
Definition same_outcome (o1 o2 : result loc * store) : Prop :=
  match fst o1, fst o2 with
  | Ok y1, Ok y2 => is_Some (snd o1 !! y1) /\ snd o1 !! y1 = snd o2 !! y2
  | Err e1, Err e2 => e1 = e2
  | _, _ => False
  end.

(** The tensor a call returned, if it returned one. *)
Definition returned (o : result loc * store) : option Tensor :=
  match fst o with
  | Ok y => snd o !! y
  | Err _ => None
  end.

(** ** The layers as their constructors build them

    The hyper-parameters each constructor fixes, as predicates on the
    constructed records. *)

Definition Conv2d_built (c : Conv2d.t) (cin cout k s p : nat) : Prop :=
  Conv2d.in_channels c = cin /\ Conv2d.out_channels c = cout /\
  Conv2d.kernel_size c = k /\ Conv2d.stride c = s /\ Conv2d.padding c = p.

Definition CovSepBlock_built (m : CovSepBlock.t) (cin cout k s p : nat) : Prop :=
  Conv2d_built (CovSepBlock.dc m) cin cin k s p /\
  Conv2d_built (CovSepBlock.pc m) cin cout 1 1 0.

Definition Encoder_built (m : Encoder.t) (cin cout : nat) : Prop :=
  CovSepBlock_built (Encoder.sepconv m) cin (cout / 4) 5 1 2 /\
  CovSepBlock_built (Encoder.sepconv2 m) (cout / 4) cout 5 1 2 /\
  match Encoder.proj m with
  | Some p => cin <> cout /\ CovSepBlock_built p cin cout 3 1 1
  | None => cin = cout
  end.

Definition Upsampling_built (m : Upsampling.t) (cin cout k : nat) : Prop :=
  ConvTranspose2d.in_channels (Upsampling.upsample m) = cin /\
  ConvTranspose2d.out_channels (Upsampling.upsample m) = cout /\
  ConvTranspose2d.kernel_size (Upsampling.upsample m) = k /\
  ConvTranspose2d.stride (Upsampling.upsample m) = 2.

Definition Downsampling_built (m : Downsampling.t) (cin cout : nat) : Prop :=
  CovSepBlock_built (Downsampling.sepconv m) cin (cout / 4) 5 2 2 /\
  CovSepBlock_built (Downsampling.sepconv2 m) (cout / 4) cout 5 1 2 /\
  CovSepBlock_built (Downsampling.branchconv m) cin cout 3 2 1.

Definition Decoder_built (m : Decoder.t) (cin cout : nat) : Prop :=
  CovSepBlock_built (Decoder.sepconv m) cin cout 3 1 1 /\
  CovSepBlock_built (Decoder.sepconv2 m) cout cout 3 1 1.

Definition EncoderStage_built (m : EncoderStage.t) (cin cout n : nat) : Prop :=
  Encoder_built (EncoderStage.encoder m) cout cout /\
  Downsampling_built (EncoderStage.downsampling m) cin cout /\
  EncoderStage.num m = n.

Definition DecoderStage_built (m : DecoderStage.t) (cin cout skip : nat) : Prop :=
  Decoder_built (DecoderStage.decoder m) cin cin /\
  Upsampling_built (DecoderStage.upsampling m) cin cout 2 /\
  CovSepBlock_built (DecoderStage.skipconnect m) skip cout 3 1 1.

Definition SimpleNet_built (m : SimpleNet.t) : Prop :=
  Conv2d_built (SimpleNet.conv m) 4 16 3 1 1 /\
  EncoderStage_built (SimpleNet.encoder_stage1 m) 16 64 1 /\
  EncoderStage_built (SimpleNet.encoder_stage2 m) 64 128 1 /\
  EncoderStage_built (SimpleNet.encoder_stage3 m) 128 256 3 /\
  EncoderStage_built (SimpleNet.encoder_stage4 m) 256 512 3 /\
  DecoderStage_built (SimpleNet.decoder_stage1 m) 512 64 256 /\
  DecoderStage_built (SimpleNet.decoder_stage2 m) 64 32 128 /\
  DecoderStage_built (SimpleNet.decoder_stage3 m) 32 32 64 /\
  DecoderStage_built (SimpleNet.decoder_stage4 m) 32 16 16 /\
  exists d c,
    SimpleNet.output_layer m = [Sequential.LDecoder d; Sequential.LConv2d c] /\
    Decoder_built d 16 16 /\ Conv2d_built c 16 4 3 1 1.

(** ** The stage as the specification words it

    An owned ordered sequence of block instances, applied in order, each
    instance constructed on its own. *)

Fixpoint apply_seq (es : list Encoder.t) (x : loc) : Fwd loc :=
  match es with
  | [] => ret x
  | e :: es' => x' <- Encoder.forward e x ;; apply_seq es' x'
  end.

(** [n] encoders, each from its own call of the constructor. *)
Fixpoint construct_encoders (n channels : nat) : Ctor (list Encoder.t) :=
  match n with
  | 0 => ret []
  | S n' =>
      e <- Encoder.init channels channels ;;
      es <- construct_encoders n' channels ;;
      ret (e :: es)
  end.

(** No parameter belongs to two positions of the sequence: the instances
    are distinct objects with weights of their own. *)
Definition independent (es : list Encoder.t) : Prop :=
  NoDup (flat_map Encoder.params es).



(** The tensors at the junctions of [forward] where it asserts a channel
    count, and those counts. *)
Definition channel_checkpoints (m : SimpleNet.t) (img : Tensor) : Prop :=
  exists pre0 first second third fourth de_first de_second de_thrid de_fourth
         output,
    let pre := tensor_relu pre0 in
    sC (shape img) = 4 /\
    Conv2d.apply (SimpleNet.conv m) img = Ok pre0 /\
    sC (shape pre) = 16 /\
    EncoderStage.eval (SimpleNet.encoder_stage1 m) pre = Ok first /\
    sC (shape first) = 64 /\
    EncoderStage.eval (SimpleNet.encoder_stage2 m) first = Ok second /\
    sC (shape second) = 128 /\
    EncoderStage.eval (SimpleNet.encoder_stage3 m) second = Ok third /\
    sC (shape third) = 256 /\
    EncoderStage.eval (SimpleNet.encoder_stage4 m) third = Ok fourth /\
    sC (shape fourth) = 512 /\
    DecoderStage.eval (SimpleNet.decoder_stage1 m) (fourth, third)
      = Ok de_first /\
    sC (shape de_first) = 64 /\
    DecoderStage.eval (SimpleNet.decoder_stage2 m) (de_first, second)
      = Ok de_second /\
    sC (shape de_second) = 32 /\
    DecoderStage.eval (SimpleNet.decoder_stage3 m) (de_second, first)
      = Ok de_thrid /\
    sC (shape de_thrid) = 32 /\
    DecoderStage.eval (SimpleNet.decoder_stage4 m) (de_thrid, pre)
      = Ok de_fourth /\
    sC (shape de_fourth) = 16 /\
    Sequential.eval (SimpleNet.output_layer m) de_fourth = Ok output /\
    sC (shape output) = 4 /\
    SimpleNet.eval m img = tensor_add output img.

(** ** Concrete data for examples *)

(** Every parameter zero. *)
Definition init_zero : Init := fun _ _ _ _ _ => 0%Z.

(** Every parameter one. *)
Definition init_ones : Init := fun _ _ _ _ _ => 1%Z.

(** Parameters that differ: a weight entry depends on its indices. *)
Definition init_index : Init :=
  fun id a b c d => Z.of_nat (id + 10 * a + b + c + d).

Definition zeros (s : Shape) : Tensor :=
  {| shape := s; data := repeat 0%Z (numel s) |}.

Definition ones (s : Shape) : Tensor :=
  {| shape := s; data := repeat 1%Z (numel s) |}.

Definition image16 : Tensor := zeros (mkShape 1 4 16 16).

(** An image without pixels: height and width 0. *)
Definition empty_image : Tensor := zeros (mkShape 1 4 0 0).

(** A small feature map with entries of both signs. *)
Definition sample_features : Tensor :=
  {| shape := mkShape 1 4 1 2; data := [3; -1; 0; -7; 5; 2; -4; 6]%Z |}.

(** ** Notions for the properties beyond shapes of aligned inputs *)

(** Half of [n], rounded up: the size a stride-2 convolution of the
    network leaves of [n] rows. *)
Definition half_up (n : nat) : nat := (n + 1) / 2.

(** A skip tensor of [b] rows can be added to [a] computed rows: the sizes
    are equal, or the skip has one row and is broadcast. *)
Definition compat (a b : nat) : Prop := b = a \/ b = 1.

(** The image sizes [forward] accepts: one row, or a multiple of 16. *)
Definition fits16 (n : nat) : Prop := n = 1 \/ n mod 16 = 0.

(** The four skip connections fit along one dimension of [n] rows: the
    encoder stages leave [h1], [h2], [h3], [h4] rows, the decoder stages
    compute [2 h4], [4 h4], [8 h4], [16 h4]. *)
Definition sizes_ok (n : nat) : Prop :=
  let h1 := half_up n in
  let h2 := half_up h1 in
  let h3 := half_up h2 in
  let h4 := half_up h3 in
  compat (2 * h4) h3 /\
  compat (2 * (2 * h4)) h2 /\
  compat (2 * (2 * (2 * h4))) h1 /\
  compat (2 * (2 * (2 * (2 * h4)))) n.

(** No entry is negative. *)
Definition nonneg (t : Tensor) : Prop := Forall (fun z => (0 <= z)%Z) (data t).

(** Two tensors of one shape agree on channel [c]. *)
Definition same_channel (c : nat) (x y : Tensor) : Prop :=
  forall b h w,
    b < sB (shape x) -> h < sH (shape x) -> w < sW (shape x) ->
    tget x b c h w = tget y b c h w.









(** * Properties *)

(** ** Lists and tensors *)

Lemma Shape_eqb_eq (s1 s2 : Shape) : Shape_eqb s1 s2 = true <-> s1 = s2.
Proof.
  destruct s1, s2; unfold Shape_eqb; simpl.
  rewrite !andb_true_iff, !Nat.eqb_eq.
  split; [intros [[[-> ->] ->] ->]; reflexivity | intros [= -> -> -> ->]; auto].
Qed.

Lemma Shape_eqb_refl (s : Shape) : Shape_eqb s s = true.
Proof. apply Shape_eqb_eq; reflexivity. Qed.

Lemma length_flat_map_const {A : Type} (f : nat -> list A) (m : nat) (l : list nat) :
  (forall i, length (f i) = m) -> length (flat_map f l) = length l * m.
Proof.
  intros Hf; induction l as [|a l IH]; simpl; [reflexivity|].
  rewrite length_app, IH, Hf; reflexivity.
Qed.










Lemma tensor_add_shape (x y : Tensor) :
  shape x = shape y ->
  exists t, tensor_add x y = Ok t /\ shape t = shape x.
Proof.
  intros H; unfold tensor_add. rewrite H, Shape_eqb_refl.
  eexists; split; reflexivity.
Qed.

Lemma tensor_iadd_shape (x y : Tensor) :
  shape x = shape y ->
  exists t, tensor_iadd x y = Ok t /\ shape t = shape x.
Proof.
  intros H; unfold tensor_iadd. rewrite H, Shape_eqb_refl.
  eexists; split; reflexivity.
Qed.

(** ** The library's convolutions on small inputs *)

(** A 3x3 convolution with padding 1, all weights and the bias 1, counts
    the pixels under the kernel. *)
Example Conv2d_3x3_example :
  exists c n,
    Conv2d.init 1 1 3 1 1 1 true init_ones 0 = (Ok c, n) /\
    Conv2d.apply c (ones (mkShape 1 1 3 3)) =
    Ok {| shape := mkShape 1 1 3 3;
          data := [5; 7; 5; 7; 10; 7; 5; 7; 5]%Z |} /\
    Conv2d.apply c (ones (mkShape 1 1 0 0)) = Err RuntimeError.
Proof.
  eexists _, _; split; [vm_compute; reflexivity|].
  split; vm_compute; reflexivity.
Qed.

(** With stride 2 the window moves two pixels at a time. *)
Example Conv2d_stride_example :
  exists c n,
    Conv2d.init 1 1 3 2 1 1 true init_ones 0 = (Ok c, n) /\
    Conv2d.apply c (ones (mkShape 1 1 4 4)) =
    Ok {| shape := mkShape 1 1 2 2; data := [5; 7; 7; 10]%Z |}.
Proof.
  eexists _, _; split; vm_compute; reflexivity.
Qed.

(** A depthwise convolution keeps the channels apart and has no bias. *)
Example DepthwiseConv_example :
  exists c n,
    DepthwiseConv 2 3 1 1 init_ones 0 = (Ok c, n) /\
    Conv2d.apply c {| shape := mkShape 1 2 2 2;
                      data := [1; 1; 1; 1; 2; 2; 2; 2]%Z |} =
    Ok {| shape := mkShape 1 2 2 2;
          data := [4; 4; 4; 4; 8; 8; 8; 8]%Z |}.
Proof.
  eexists _, _; split; vm_compute; reflexivity.
Qed.

(** A pointwise convolution mixes the channels of one pixel. *)
Example PointwiseConv_example :
  exists c n,
    PointwiseConv 2 3 init_index 0 = (Ok c, n) /\
    Conv2d.apply c {| shape := mkShape 1 2 1 2; data := [1; 2; 10; 20]%Z |} =
    Ok {| shape := mkShape 1 3 1 2;
          data := [11; 21; 131; 251; 251; 481]%Z |}.
Proof.
  eexists _, _; split; vm_compute; reflexivity.
Qed.

(** A transposed convolution with kernel 2 and stride 2 writes one 2x2
    block per input pixel. *)
Example ConvTranspose2d_example :
  exists c n,
    ConvTranspose2d.init 1 1 2 2 init_index 0 = (Ok c, n) /\
    ConvTranspose2d.apply c {| shape := mkShape 1 1 2 1; data := [2; 3]%Z |} =
    Ok {| shape := mkShape 1 1 4 2;
          data := [1; 3; 3; 5; 1; 4; 4; 7]%Z |}.
Proof.
  eexists _, _; split; vm_compute; reflexivity.
Qed.

(** Addition broadcasts a dimension of size 1; in place, only the second
    operand may be broadcast. *)
Example broadcast_example :
  let x := {| shape := mkShape 1 2 1 2; data := [1; 2; 10; 20]%Z |} in
  let y := {| shape := mkShape 1 2 1 1; data := [100; 200]%Z |} in
  tensor_add x y =
    Ok {| shape := mkShape 1 2 1 2; data := [101; 102; 210; 220]%Z |} /\
  tensor_iadd x y =
    Ok {| shape := mkShape 1 2 1 2; data := [101; 102; 210; 220]%Z |} /\
  tensor_iadd y x = Err RuntimeError.
Proof. repeat split. Qed.

(** ** Running [forward] code: one rule per statement form *)

Lemma lookup_snoc_last (S : store) (v : Tensor) : (S ++ [v]) !! length S = Some v.
Proof. apply list_lookup_middle; reflexivity. Qed.

Lemma lookup_snoc_old (S : store) (v t : Tensor) (i : nat) :
  S !! i = Some t -> (S ++ [v]) !! i = Some t.
Proof. apply lookup_app_l_Some. Qed.

Lemma insert_snoc_last (S : store) (v w : Tensor) :
  <[length S := w]> (S ++ [v]) = S ++ [w].
Proof.
  rewrite insert_app_r_alt by lia. rewrite Nat.sub_diag. reflexivity.
Qed.

Lemma bind_Fwd {A B : Type} (c : Fwd A) (k : A -> Fwd B) (s : store) :
  (x <- c ;; k x) s =
  match c s with
  | (Ok a, s') => k a s'
  | (Err e, s') => (Err e, s')
  end.
Proof. reflexivity. Qed.

Lemma read_Some (s : store) (x : loc) (t : Tensor) :
  s !! x = Some t -> read x s = (Ok t, s).
Proof. intros H; unfold read; rewrite H; reflexivity. Qed.

(** Run a leading [read] whose address is known. *)
Ltac step_read H :=
  rewrite bind_Fwd, (read_Some _ _ _ H); cbv beta iota.

Lemma runs_on_weaken (base base' : store) c s r :
  base' `prefix_of` base -> runs_on base c s r -> runs_on base' c s r.
Proof.
  intros Hp (S & HS & E). exists S; split; [etransitivity; eassumption | exact E].
Qed.

(** A call that returns a fresh tensor, followed by the rest. *)
Lemma run_call (base : store) (c : Fwd loc) (k : loc -> Fwd loc) (s : store)
  (r1 : result Tensor) (kr : Tensor -> result Tensor) :
  runs c s r1 ->
  base `prefix_of` s ->
  (forall S t1, s `prefix_of` S -> r1 = Ok t1 ->
     runs_on base (k (length S)) (S ++ [t1]) (kr t1)) ->
  runs_on base (x <- c ;; k x) s (x <- r1 ;; kr x).
Proof.
  intros (S & HS & E) Hb Hk. unfold runs_on. rewrite bind_Fwd, E.
  destruct r1 as [t1|e]; simpl.
  - apply Hk; auto.
  - exists S; split; [etransitivity; eassumption | reflexivity].
Qed.

Lemma run_last (base : store) (c : Fwd loc) (s : store) (r : result Tensor) :
  runs c s r -> base `prefix_of` s -> runs_on base c s r.
Proof. intros H Hb. eapply runs_on_weaken; eassumption. Qed.

Lemma run_ret (base S : store) (v : Tensor) :
  base `prefix_of` S -> runs_on base (ret (length S)) (S ++ [v]) (ret v).
Proof. intros Hb. exists S; split; [exact Hb | reflexivity]. Qed.

(** The activation applied to the tensor just computed. *)
Lemma ReLU_forward_last (a : ReLU.t) (S : store) (v : Tensor) :
  exists S', S `prefix_of` S' /\
    ReLU.forward a (length S) (S ++ [v]) =
    (Ok (length S'), S' ++ [tensor_relu v]).
Proof.
  unfold ReLU.forward. step_read (lookup_snoc_last S v).
  destruct (ReLU.inplace a).
  - exists S; split; [reflexivity|].
    rewrite bind_Fwd. unfold write. rewrite insert_snoc_last. reflexivity.
  - exists (S ++ [v]); split; [apply prefix_app_r; reflexivity | reflexivity].
Qed.

Lemma run_relu (base : store) (a : ReLU.t) (S : store) (v : Tensor)
  (k : loc -> Fwd loc) (r : result Tensor) :
  (forall S', S `prefix_of` S' ->
     runs_on base (k (length S')) (S' ++ [tensor_relu v]) r) ->
  runs_on base (y <- ReLU.forward a (length S) ;; k y) (S ++ [v]) r.
Proof.
  intros Hk. destruct (ReLU_forward_last a S v) as (S' & HS' & E).
  unfold runs_on. rewrite bind_Fwd, E. apply Hk; exact HS'.
Qed.

Lemma run_relu_last (base : store) (a : ReLU.t) (S : store) (v : Tensor) :
  base `prefix_of` S ->
  runs_on base (ReLU.forward a (length S)) (S ++ [v]) (Ok (tensor_relu v)).
Proof.
  intros Hb. destruct (ReLU_forward_last a S v) as (S' & HS' & E).
  exists S'; split; [etransitivity; eassumption | exact E].
Qed.

(** [x += y] on the tensor just computed. *)
Lemma run_iadd (base S : store) (a b : Tensor) (y : loc)
  (k : loc -> Fwd loc) (kr : Tensor -> result Tensor) :
  (S ++ [a]) !! y = Some b ->
  base `prefix_of` S ->
  (forall r', tensor_iadd a b = Ok r' ->
     runs_on base (k (length S)) (S ++ [r']) (kr r')) ->
  runs_on base (z <- iadd (length S) y ;; k z) (S ++ [a])
          (z <- tensor_iadd a b ;; kr z).
Proof.
  intros Hy Hb Hk. unfold runs_on, iadd. rewrite bind_Fwd.
  step_read (lookup_snoc_last S a). step_read Hy.
  rewrite bind_Fwd. unfold lift.
  destruct (tensor_iadd a b) as [r'|e] eqn:E; simpl.
  - rewrite insert_snoc_last. apply Hk; reflexivity.
  - exists (S ++ [a]); split; [apply prefix_app_r; exact Hb | reflexivity].
Qed.

(** [assert x.shape[1] == n], followed by the rest. *)
Lemma run_assert (base s : store) (x : loc) (t : Tensor) (n : nat)
  (k : Fwd loc) (kr : result Tensor) :
  s !! x = Some t ->
  base `prefix_of` s ->
  (sC (shape t) = n -> runs_on base k s kr) ->
  runs_on base (assert_channels x n ;;; k) s (check_channels t n ;;; kr).
Proof.
  intros Hx Hb Hk. unfold runs_on, assert_channels, shape1.
  rewrite bind_Fwd, bind_Fwd. step_read Hx.
  unfold check_channels; simpl.
  destruct (sC (shape t) =? n) eqn:E; simpl.
  - apply Hk. apply Nat.eqb_eq; exact E.
  - exists s; split; [exact Hb | reflexivity].
Qed.

Lemma add_runs (s : store) (x y : loc) (a b : Tensor) :
  s !! x = Some a -> s !! y = Some b -> runs (add x y) s (tensor_add a b).
Proof.
  intros Hx Hy. unfold runs, runs_on, add.
  step_read Hx. step_read Hy. rewrite bind_Fwd. unfold lift.
  destruct (tensor_add a b); exists s; split; reflexivity.
Qed.

Lemma Conv2d_forward_runs (c : Conv2d.t) (s : store) (x : loc) (t : Tensor) :
  s !! x = Some t -> runs (Conv2d.forward c x) s (Conv2d.apply c t).
Proof.
  intros Hx. unfold runs, runs_on, Conv2d.forward.
  step_read Hx. rewrite bind_Fwd. unfold lift.
  destruct (Conv2d.apply c t); exists s; split; reflexivity.
Qed.

Lemma ConvTranspose2d_forward_runs (c : ConvTranspose2d.t) (s : store)
  (x : loc) (t : Tensor) :
  s !! x = Some t ->
  runs (ConvTranspose2d.forward c x) s (ConvTranspose2d.apply c t).
Proof.
  intros Hx. unfold runs, runs_on, ConvTranspose2d.forward.
  step_read Hx. rewrite bind_Fwd. unfold lift.
  destruct (ConvTranspose2d.apply c t); exists s; split; reflexivity.
Qed.

Lemma run_ret_bind (base s : store) (x : loc) (t : Tensor)
  (k : loc -> Fwd loc) (kr : Tensor -> result Tensor) :
  runs_on base (k x) s (kr t) ->
  runs_on base (b <- ret x ;; k b) s (b <- Ok t ;; kr b).
Proof. exact (fun H => H). Qed.

(** Side conditions of the rules: a store extends an earlier one, and what
    an address named earlier is still there. *)
Ltac prefix_tac :=
  first
    [ reflexivity
    | assumption
    | apply prefix_app_r; prefix_tac
    | match goal with
      | H : ?A `prefix_of` ?S |- _ `prefix_of` ?S =>
          transitivity A; [prefix_tac | exact H]
      end ].

Ltac lookup_tac :=
  first
    [ eassumption
    | apply lookup_snoc_last
    | apply lookup_snoc_old; lookup_tac
    | match goal with
      | H : ?A `prefix_of` ?S |- ?S !! _ = Some _ =>
          refine (prefix_lookup_Some A S _ _ _ H); lookup_tac
      end ].

(** Apply the rule for a call whose own behaviour is given by [L]. *)
Ltac call L :=
  eapply run_call;
  [ eapply L; lookup_tac
  | prefix_tac
  | let S := fresh "S" in
    let v := fresh "v" in
    let HS := fresh "HS" in
    intros S v HS _ ].

Ltac call_last L :=
  eapply run_last; [ eapply L; lookup_tac | prefix_tac ].

Ltac relu_step :=
  apply run_relu;
  let S := fresh "S" in
  let HS := fresh "HS" in
  intros S HS.

(** ** Every [forward] computes its [eval] and keeps the store *)

Lemma CovSepBlock_forward_runs (m : CovSepBlock.t) (s : store) (x : loc)
  (t : Tensor) :
  s !! x = Some t -> runs (CovSepBlock.forward m x) s (CovSepBlock.eval m t).
Proof.
  intros Hx. unfold CovSepBlock.forward, CovSepBlock.eval, runs.
  call Conv2d_forward_runs.
  call Conv2d_forward_runs.
  apply run_ret. prefix_tac.
Qed.

Lemma Encoder_forward_runs (m : Encoder.t) (s : store) (x : loc) (t : Tensor) :
  s !! x = Some t -> runs (Encoder.forward m x) s (Encoder.eval m t).
Proof.
  intros Hx. unfold Encoder.forward, Encoder.eval, runs.
  destruct (Encoder.proj m) as [p|].
  - call CovSepBlock_forward_runs.
    call CovSepBlock_forward_runs.
    relu_step.
    call CovSepBlock_forward_runs.
    eapply run_iadd; [lookup_tac | prefix_tac | intros r' _].
    apply run_relu_last. prefix_tac.
  - apply run_ret_bind.
    call CovSepBlock_forward_runs.
    relu_step.
    call CovSepBlock_forward_runs.
    eapply run_iadd; [lookup_tac | prefix_tac | intros r' _].
    apply run_relu_last. prefix_tac.
Qed.

Lemma Upsampling_forward_runs (m : Upsampling.t) (s : store) (x : loc)
  (t : Tensor) :
  s !! x = Some t -> runs (Upsampling.forward m x) s (Upsampling.eval m t).
Proof. apply ConvTranspose2d_forward_runs. Qed.

Lemma Downsampling_forward_runs (m : Downsampling.t) (s : store) (x : loc)
  (t : Tensor) :
  s !! x = Some t -> runs (Downsampling.forward m x) s (Downsampling.eval m t).
Proof.
  intros Hx.
  unfold Downsampling.forward, Downsampling.eval, runs.
  call CovSepBlock_forward_runs.
  relu_step.
  call CovSepBlock_forward_runs.
  call CovSepBlock_forward_runs.
  call_last add_runs.
Qed.

Lemma Decoder_forward_runs (m : Decoder.t) (s : store) (x : loc) (t : Tensor) :
  s !! x = Some t -> runs (Decoder.forward m x) s (Decoder.eval m t).
Proof.
  intros Hx. unfold Decoder.forward, Decoder.eval, runs.
  call CovSepBlock_forward_runs.
  relu_step.
  call CovSepBlock_forward_runs.
  call_last add_runs.
Qed.

(** The loop of [EncoderStage.forward], started on the tensor just
    computed. *)
Lemma for_range_Encoder_runs (e : Encoder.t) (n : nat) :
  forall (S : store) (v : Tensor),
    runs_on S (for_range n (fun x => Encoder.forward e x) (length S))
            (S ++ [v]) (EncoderStage.repeat_eval n e v).
Proof.
  induction n as [|n IH]; intros S v; simpl.
  - exists S; split; reflexivity.
  - call Encoder_forward_runs.
    eapply runs_on_weaken; [|apply IH]. prefix_tac.
Qed.

Lemma EncoderStage_forward_runs (m : EncoderStage.t) (s : store) (x : loc)
  (t : Tensor) :
  s !! x = Some t -> runs (EncoderStage.forward m x) s (EncoderStage.eval m t).
Proof.
  intros Hx. unfold EncoderStage.forward, EncoderStage.eval, runs.
  call Downsampling_forward_runs.
  eapply runs_on_weaken; [|apply for_range_Encoder_runs]. prefix_tac.
Qed.

Lemma DecoderStage_forward_runs (m : DecoderStage.t) (s : store)
  (i k : loc) (a b : Tensor) :
  s !! i = Some a -> s !! k = Some b ->
  runs (DecoderStage.forward m (i, k)) s (DecoderStage.eval m (a, b)).
Proof.
  intros Hi Hk. unfold DecoderStage.forward, DecoderStage.eval, runs.
  call Decoder_forward_runs.
  call Upsampling_forward_runs.
  call CovSepBlock_forward_runs.
  relu_step.
  call_last add_runs.
Qed.

Lemma layer_forward_runs (l : Sequential.layer) (s : store) (x : loc)
  (t : Tensor) :
  s !! x = Some t ->
  runs (Sequential.layer_forward l x) s (Sequential.layer_eval l t).
Proof.
  destruct l; simpl; [apply Decoder_forward_runs | apply Conv2d_forward_runs].
Qed.

Lemma Sequential_forward_last (m : Sequential.t) :
  forall (S : store) (v : Tensor),
    runs_on S (Sequential.forward m (length S)) (S ++ [v])
            (Sequential.eval m v).
Proof.
  induction m as [|l m IH]; intros S v; simpl.
  - exists S; split; reflexivity.
  - call layer_forward_runs.
    eapply runs_on_weaken; [|apply IH]. prefix_tac.
Qed.

Lemma Sequential_forward_runs (m : Sequential.t) (s : store) (x : loc)
  (t : Tensor) :
  m <> [] -> s !! x = Some t ->
  runs (Sequential.forward m x) s (Sequential.eval m t).
Proof.
  intros Hm Hx. destruct m as [|l m]; [congruence|]. simpl. unfold runs.
  call layer_forward_runs.
  eapply runs_on_weaken; [|apply Sequential_forward_last]. prefix_tac.
Qed.

Ltac assert_step :=
  eapply run_assert; [ lookup_tac | prefix_tac | intros _ ].

(** The whole network: [forward] returns, in a store that extends the one
    it started in, the tensor [eval] computes from the input tensor, or
    raises the exception [eval] gives. *)
Lemma SimpleNet_forward_runs (m : SimpleNet.t) (s : store) (img : loc)
  (t : Tensor) :
  SimpleNet.output_layer m <> [] ->
  s !! img = Some t ->
  runs (SimpleNet.forward m img) s (SimpleNet.eval m t).
Proof.
  intros Hm Hx. unfold SimpleNet.forward, SimpleNet.eval, runs.
  assert_step.
  call Conv2d_forward_runs.
  relu_step. cbv zeta.
  assert_step.
  call EncoderStage_forward_runs. assert_step.
  call EncoderStage_forward_runs. assert_step.
  call EncoderStage_forward_runs. assert_step.
  call EncoderStage_forward_runs. assert_step.
  call DecoderStage_forward_runs. assert_step.
  call DecoderStage_forward_runs. assert_step.
  call DecoderStage_forward_runs. assert_step.
  call DecoderStage_forward_runs. assert_step.
  eapply run_call;
    [ eapply Sequential_forward_runs; [exact Hm | lookup_tac]
    | prefix_tac | intros Sout vout HSout _ ].
  assert_step.
  call_last add_runs.
Qed.

(** What [runs] says about the store and the returned tensor. *)
Lemma runs_frame (c : Fwd loc) (s : store) (r : result Tensor) :
  runs c s r ->
  forall l t, s !! l = Some t -> snd (c s) !! l = Some t.
Proof.
  intros (S & HS & E) l t Hl. rewrite E.
  destruct r; simpl.
  - apply lookup_snoc_old. eapply prefix_lookup_Some; eassumption.
  - eapply prefix_lookup_Some; eassumption.
Qed.

Lemma runs_Ok (c : Fwd loc) (s : store) (t : Tensor) :
  runs c s (Ok t) ->
  exists y, fst (c s) = Ok y /\ snd (c s) !! y = Some t.
Proof.
  intros (S & HS & E). rewrite E; simpl.
  exists (length S); split; [reflexivity | apply lookup_snoc_last].
Qed.

Lemma runs_Err (c : Fwd loc) (s : store) (e : exn) :
  runs c s (Err e) -> fst (c s) = Err e.
Proof. intros (S & HS & E). rewrite E; reflexivity. Qed.

Lemma runs_same_outcome (c1 c2 : Fwd loc) (s1 s2 : store) (r : result Tensor) :
  runs c1 s1 r -> runs c2 s2 r -> same_outcome (c1 s1) (c2 s2).
Proof.
  intros H1 H2. unfold same_outcome. destruct r as [t|e].
  - destruct (runs_Ok _ _ _ H1) as (y1 & E1 & L1).
    destruct (runs_Ok _ _ _ H2) as (y2 & E2 & L2).
    rewrite E1, E2, L1, L2. split; [eexists; reflexivity | reflexivity].
  - rewrite (runs_Err _ _ _ H1), (runs_Err _ _ _ H2). reflexivity.
Qed.

(** ** Constructors *)

Lemma bind_Ctor {A B : Type} (c : Ctor A) (k : A -> Ctor B) (init : Init) (n : nat) :
  (x <- c ;; k x) init n =
  match c init n with
  | (Ok a, n') => k a init n'
  | (Err e, n') => (Err e, n')
  end.
Proof. reflexivity. Qed.

Lemma bind_Ctor_Ok {A B : Type} (c : Ctor A) (k : A -> Ctor B) (init : Init)
  (n n' : nat) (b : B) :
  (x <- c ;; k x) init n = (Ok b, n') ->
  exists a n1, c init n = (Ok a, n1) /\ k a init n1 = (Ok b, n').
Proof.
  rewrite bind_Ctor. destruct (c init n) as [[a|e] n1]; [eauto | discriminate].
Qed.

Lemma ret_Ctor_Ok {A : Type} (a b : A) (init : Init) (n n' : nat) :
  ret a init n = (Ok b, n') -> a = b /\ n = n'.
Proof. intros [= -> ->]; auto. Qed.

(** Split a successful constructor into its successful steps. *)
Ltac ctor_inv H :=
  cbv zeta in H;
  repeat
    (let a := fresh "a" in
     let n := fresh "n" in
     let E := fresh "E" in
     apply bind_Ctor_Ok in H; destruct H as (a & n & E & H); cbv zeta in H);
  try (apply ret_Ctor_Ok in H; destruct H as [<- <-]).

Lemma Conv2d_init_inv cin cout k s p g wb init n c n' :
  Conv2d.init cin cout k s p g wb init n = (Ok c, n') ->
  Conv2d_built c cin cout k s p /\ 0 < g.
Proof.
  unfold Conv2d.init. destruct (g =? 0) eqn:Eg; [discriminate|].
  destruct (negb (cin mod g =? 0)); [discriminate|].
  destruct (negb (cout mod g =? 0)); [discriminate|].
  apply Nat.eqb_neq in Eg. intros H. destruct wb; ctor_inv H.
  - apply bind_Ctor_Ok in E0. destruct E0 as (q & nq & Eq & E0).
    apply ret_Ctor_Ok in E0. destruct E0 as [<- <-].
    repeat split; lia.
  - apply ret_Ctor_Ok in E0. destruct E0 as [<- <-].
    repeat split; lia.
Qed.

Lemma Conv2d_init_ok cin cout k s p g wb init n :
  0 < g -> cin mod g = 0 -> cout mod g = 0 ->
  exists c n', Conv2d.init cin cout k s p g wb init n = (Ok c, n').
Proof.
  intros Hg Hi Ho. unfold Conv2d.init.
  destruct (g =? 0) eqn:Eg; [apply Nat.eqb_eq in Eg; lia|].
  rewrite Hi, Ho. simpl. destruct wb; eexists _, _; reflexivity.
Qed.

Lemma CovSepBlock_init_inv cin cout k s p init n m n' :
  CovSepBlock.init cin cout k s p init n = (Ok m, n') ->
  CovSepBlock_built m cin cout k s p /\ 0 < cin.
Proof.
  unfold CovSepBlock.init, DepthwiseConv, PointwiseConv. intros H. ctor_inv H.
  apply Conv2d_init_inv in E, E0. simpl. unfold CovSepBlock_built; simpl.
  tauto.
Qed.

Lemma CovSepBlock_init_ok cin cout k s p init n :
  0 < cin -> exists m n', CovSepBlock.init cin cout k s p init n = (Ok m, n').
Proof.
  intros Hc. unfold CovSepBlock.init, DepthwiseConv, PointwiseConv.
  destruct (Conv2d_init_ok cin cin k s p cin false init n) as (d & n1 & Ed);
    [lia | apply Nat.Div0.mod_same | apply Nat.Div0.mod_same |].
  destruct (Conv2d_init_ok cin cout 1 1 0 1 true init n1) as (q & n2 & Eq);
    [lia | apply Nat.mod_1_r | apply Nat.mod_1_r |].
  rewrite bind_Ctor, Ed, bind_Ctor, Eq. eexists _, _; reflexivity.
Qed.

(** A separable block over zero channels cannot be built: its depthwise
    convolution would have zero groups. *)
Lemma CovSepBlock_init_zero cout k s p init n :
  CovSepBlock.init 0 cout k s p init n = (Err ValueError, n).
Proof. reflexivity. Qed.

Lemma Encoder_init_inv cin cout init n m n' :
  Encoder.init cin cout init n = (Ok m, n') ->
  Encoder_built m cin cout /\ 0 < cin /\ 4 <= cout.
Proof.
  unfold Encoder.init. intros H. ctor_inv H.
  apply CovSepBlock_init_inv in E, E0. destruct E as [B1 P1], E0 as [B2 P2].
  assert (4 <= cout) by lia.
  unfold Encoder_built;
    cbn [Encoder.sepconv Encoder.sepconv2 Encoder.proj].
  destruct (cin =? cout) eqn:Ec; cbn [negb] in E1.
  - apply ret_Ctor_Ok in E1. destruct E1 as [<- _].
    apply Nat.eqb_eq in Ec. tauto.
  - apply Nat.eqb_neq in Ec. ctor_inv E1.
    apply CovSepBlock_init_inv in E. tauto.
Qed.

Lemma Encoder_init_ok cin cout init n :
  0 < cin -> 4 <= cout ->
  exists m n', Encoder.init cin cout init n = (Ok m, n').
Proof.
  intros Hi Ho. unfold Encoder.init.
  destruct (CovSepBlock_init_ok cin (cout / 4) 5 1 2 init n) as (a & n1 & E1);
    [lia|].
  destruct (CovSepBlock_init_ok (cout / 4) cout 5 1 2 init n1) as (b & n2 & E2);
    [lia|].
  rewrite bind_Ctor, E1. cbv zeta. rewrite bind_Ctor, E2, bind_Ctor.
  destruct (negb (cin =? cout)).
  - destruct (CovSepBlock_init_ok cin cout 3 1 1 init n2) as (p & n3 & E3);
      [lia|].
    rewrite bind_Ctor, E3. eexists _, _; reflexivity.
  - eexists _, _; reflexivity.
Qed.

Lemma Encoder_init_small cin cout init n :
  0 < cin -> cout < 4 ->
  fst (Encoder.init cin cout init n) = Err ValueError.
Proof.
  intros Hi Ho. unfold Encoder.init.
  rewrite (Nat.div_small cout 4) by exact Ho.
  destruct (CovSepBlock_init_ok cin 0 5 1 2 init n) as (a & n1 & E1); [lia|].
  rewrite bind_Ctor, E1. cbv zeta.
  rewrite bind_Ctor, CovSepBlock_init_zero. reflexivity.
Qed.

Lemma Downsampling_init_inv cin cout init n m n' :
  Downsampling.init cin cout init n = (Ok m, n') ->
  Downsampling_built m cin cout /\ 0 < cin /\ 4 <= cout.
Proof.
  unfold Downsampling.init. intros H. ctor_inv H.
  apply CovSepBlock_init_inv in E, E0, E1.
  unfold Downsampling_built; simpl.
  assert (4 <= cout) by lia. tauto.
Qed.

Lemma Downsampling_init_ok cin cout init n :
  0 < cin -> 4 <= cout ->
  exists m n', Downsampling.init cin cout init n = (Ok m, n').
Proof.
  intros Hi Ho. unfold Downsampling.init.
  destruct (CovSepBlock_init_ok cin (cout / 4) 5 2 2 init n) as (a & n1 & E1);
    [lia|].
  destruct (CovSepBlock_init_ok (cout / 4) cout 5 1 2 init n1) as (b & n2 & E2);
    [lia|].
  destruct (CovSepBlock_init_ok cin cout 3 2 1 init n2) as (c & n3 & E3);
    [lia|].
  rewrite bind_Ctor, E1. cbv zeta. rewrite bind_Ctor, E2, bind_Ctor, E3.
  eexists _, _; reflexivity.
Qed.

Lemma Downsampling_init_small cin cout init n :
  0 < cin -> cout < 4 ->
  fst (Downsampling.init cin cout init n) = Err ValueError.
Proof.
  intros Hi Ho. unfold Downsampling.init.
  rewrite (Nat.div_small cout 4) by exact Ho.
  destruct (CovSepBlock_init_ok cin 0 5 2 2 init n) as (a & n1 & E1); [lia|].
  rewrite bind_Ctor, E1. cbv zeta.
  rewrite bind_Ctor, CovSepBlock_init_zero. reflexivity.
Qed.

Lemma Upsampling_init_inv cin cout k init n m n' :
  Upsampling.init cin cout k init n = (Ok m, n') ->
  Upsampling_built m cin cout k.
Proof.
  unfold Upsampling.init, ConvTranspose2d.init. intros H. ctor_inv H.
  ctor_inv E. repeat split.
Qed.

Lemma Decoder_init_inv cin cout init n m n' :
  Decoder.init cin cout init n = (Ok m, n') ->
  Decoder_built m cin cout.
Proof.
  unfold Decoder.init. intros H. ctor_inv H.
  apply CovSepBlock_init_inv in E, E0.
  unfold Decoder_built; simpl. tauto.
Qed.

Lemma EncoderStage_init_inv cin cout num init n m n' :
  EncoderStage.init cin cout num init n = (Ok m, n') ->
  EncoderStage_built m cin cout num.
Proof.
  unfold EncoderStage.init. intros H. ctor_inv H.
  apply Encoder_init_inv in E. apply Downsampling_init_inv in E0.
  unfold EncoderStage_built; simpl. tauto.
Qed.

Lemma DecoderStage_init_inv cin cout skip init n m n' :
  DecoderStage.init cin cout skip init n = (Ok m, n') ->
  DecoderStage_built m cin cout skip.
Proof.
  unfold DecoderStage.init. intros H. ctor_inv H.
  apply Decoder_init_inv in E. apply Upsampling_init_inv in E0.
  apply CovSepBlock_init_inv in E1.
  unfold DecoderStage_built; simpl. tauto.
Qed.

Lemma SimpleNet_init_inv init n m n' :
  SimpleNet.init init n = (Ok m, n') -> SimpleNet_built m.
Proof.
  unfold SimpleNet.init. intros H. ctor_inv H.
  apply Conv2d_init_inv in E. destruct E as [E _].
  apply EncoderStage_init_inv in E0, E1, E2, E3.
  apply DecoderStage_init_inv in E4, E5, E6, E7.
  apply Decoder_init_inv in E8.
  apply Conv2d_init_inv in E9. destruct E9 as [E9 _].
  unfold SimpleNet_built; simpl.
  repeat (split; [assumption|]).
  exists a8, a9. split; [reflexivity | split; assumption].
Qed.

(** The network can be constructed: [SimpleNet()] does not raise, and it
    creates 114 parameters. *)
Lemma SimpleNet_init_ok init n :
  exists m, SimpleNet.init init n = (Ok m, 114 + n).
Proof. eexists; vm_compute; reflexivity. Qed.

(** ** Shapes *)

Lemma spatially_empty_pos (B C H W : nat) :
  0 < H -> 0 < W -> spatially_empty (mkShape B C H W) = false.
Proof.
  intros HH HW. unfold spatially_empty; cbn [sB sC sH sW].
  destruct (Nat.eqb_spec H 0); [lia|]. destruct (Nat.eqb_spec W 0); [lia|].
  apply andb_false_r.
Qed.

(** A convolution accepts a non-empty input of its channel count that is
    at least as large as its kernel once padded. *)
Lemma Conv2d_apply_Ok (c : Conv2d.t) (cin cout k s p : nat) (x : Tensor)
  (B H W : nat) :
  Conv2d_built c cin cout k s p ->
  shape x = mkShape B cin H W ->
  0 < s -> k <= H + 2 * p -> k <= W + 2 * p -> 0 < H -> 0 < W ->
  Conv2d.apply c x =
  Ok (tabulate (mkShape B cout (Conv2d.out_size H k s p)
                               (Conv2d.out_size W k s p))
               (Conv2d.entry c x)).
Proof.
  intros (Hi & Ho & Hk & Hs & Hp) Hx Hs0 HkH HkW HH HW.
  unfold Conv2d.apply. rewrite Hx, Hi, Ho, Hk, Hs, Hp. cbn [sB sC sH sW].
  rewrite Nat.eqb_refl. cbn [negb].
  destruct (Nat.eqb_spec s 0); [lia|].
  destruct (Nat.ltb_spec (H + 2 * p) k); [lia|].
  destruct (Nat.ltb_spec (W + 2 * p) k); [lia|]. cbn [orb].
  rewrite spatially_empty_pos by assumption. reflexivity.
Qed.

Lemma out_size_pos (n k s p : nat) : 0 < Conv2d.out_size n k s p.
Proof. unfold Conv2d.out_size. lia. Qed.

Lemma out_size_pointwise (n : nat) : 0 < n -> Conv2d.out_size n 1 1 0 = n.
Proof. intros H. unfold Conv2d.out_size. rewrite Nat.div_1_r. lia. Qed.

Lemma out_size_5_1_2 (n : nat) : 0 < n -> Conv2d.out_size n 5 1 2 = n.
Proof. intros H. unfold Conv2d.out_size. rewrite Nat.div_1_r. lia. Qed.

Lemma out_size_3_1_1 (n : nat) : 0 < n -> Conv2d.out_size n 3 1 1 = n.
Proof. intros H. unfold Conv2d.out_size. rewrite Nat.div_1_r. lia. Qed.

Lemma out_size_5_2_2 (n : nat) :
  0 < n -> n mod 2 = 0 -> Conv2d.out_size n 5 2 2 = n / 2.
Proof. intros H E. unfold Conv2d.out_size. lia. Qed.

Lemma out_size_3_2_1 (n : nat) :
  0 < n -> n mod 2 = 0 -> Conv2d.out_size n 3 2 1 = n / 2.
Proof. intros H E. unfold Conv2d.out_size. lia. Qed.

Lemma CovSepBlock_eval_shape (m : CovSepBlock.t) (cin cout k s p : nat)
  (x : Tensor) (B H W : nat) :
  CovSepBlock_built m cin cout k s p ->
  shape x = mkShape B cin H W ->
  0 < s -> k <= H + 2 * p -> k <= W + 2 * p -> 0 < H -> 0 < W ->
  exists y,
    CovSepBlock.eval m x = Ok y /\
    shape y = mkShape B cout (Conv2d.out_size H k s p)
                             (Conv2d.out_size W k s p) /\
    exists z, y = tabulate (shape y) (Conv2d.entry (CovSepBlock.pc m) z).
Proof.
  intros [Hd Hp] Hx Hs HkH HkW HH HW. unfold CovSepBlock.eval.
  rewrite (Conv2d_apply_Ok _ _ _ _ _ _ _ _ _ _ Hd Hx) by assumption.
  cbn [bind Monad_result].
  erewrite (Conv2d_apply_Ok _ _ _ _ _ _ _ B _ _ Hp);
    [ | reflexivity | lia | | | apply out_size_pos | apply out_size_pos ].
  - rewrite !out_size_pointwise by apply out_size_pos.
    eexists; split; [reflexivity|]. split; [reflexivity|].
    eexists; reflexivity.
  - pose proof (out_size_pos H k s p). lia.
  - pose proof (out_size_pos W k s p). lia.
Qed.

Lemma tensor_relu_shape (t : Tensor) : shape (tensor_relu t) = shape t.
Proof. reflexivity. Qed.

Lemma Encoder_eval_shape (m : Encoder.t) (cin cout : nat) (x : Tensor)
  (B H W : nat) :
  Encoder_built m cin cout ->
  shape x = mkShape B cin H W -> 0 < H -> 0 < W ->
  exists y, Encoder.eval m x = Ok y /\ shape y = mkShape B cout H W.
Proof.
  intros (H1 & H2 & H3) Hx HH HW. unfold Encoder.eval.
  assert (exists br,
    match Encoder.proj m with
    | Some p => CovSepBlock.eval p x
    | None => Ok x
    end = Ok br /\ shape br = mkShape B cout H W) as (br & -> & Hbr).
  { destruct (Encoder.proj m) as [p|].
    - destruct H3 as [_ H3].
      destruct (CovSepBlock_eval_shape _ _ _ _ _ _ _ _ _ _ H3 Hx)
        as (y & E & Hy & _); try lia.
      rewrite !out_size_3_1_1 in Hy by assumption. eauto.
    - subst cout. eauto. }
  cbn [bind Monad_result].
  destruct (CovSepBlock_eval_shape _ _ _ _ _ _ _ _ _ _ H1 Hx)
    as (y1 & -> & Hy1 & _); try lia.
  rewrite !out_size_5_1_2 in Hy1 by assumption.
  cbn [bind Monad_result].
  destruct (CovSepBlock_eval_shape _ _ _ _ _ _ (tensor_relu y1) _ _ _ H2 Hy1)
    as (y2 & -> & Hy2 & _); try lia.
  rewrite !out_size_5_1_2 in Hy2 by assumption.
  cbn [bind Monad_result].
  destruct (tensor_iadd_shape y2 br) as (y3 & -> & Hy3); [congruence|].
  cbn [bind Monad_result].
  eexists; split; [reflexivity|]. rewrite tensor_relu_shape. congruence.
Qed.

Lemma Downsampling_paths_shape (m : Downsampling.t) (cin cout : nat)
  (x : Tensor) (B H W : nat) :
  Downsampling_built m cin cout ->
  shape x = mkShape B cin H W ->
  0 < H -> 0 < W -> H mod 2 = 0 -> W mod 2 = 0 ->
  exists y b,
    Downsampling.main_path m x = Ok y /\
    shape y = mkShape B cout (H / 2) (W / 2) /\
    Downsampling.branch_path m x = Ok b /\
    shape b = mkShape B cout (H / 2) (W / 2).
Proof.
  intros (H1 & H2 & H3) Hx HH HW EH EW.
  unfold Downsampling.main_path, Downsampling.branch_path.
  destruct (CovSepBlock_eval_shape _ _ _ _ _ _ _ _ _ _ H1 Hx)
    as (y1 & -> & Hy1 & _); try lia.
  rewrite !out_size_5_2_2 in Hy1 by assumption.
  cbn [bind Monad_result].
  destruct (CovSepBlock_eval_shape _ _ _ _ _ _ (tensor_relu y1) _ _ _ H2 Hy1)
    as (y2 & -> & Hy2 & _); try lia.
  rewrite !out_size_5_1_2 in Hy2 by lia.
  destruct (CovSepBlock_eval_shape _ _ _ _ _ _ _ _ _ _ H3 Hx)
    as (b & -> & Hb & _); try lia.
  rewrite !out_size_3_2_1 in Hb by assumption.
  eauto 10.
Qed.

(** [eval] is the sum of the two paths. *)
Lemma Downsampling_eval_paths (m : Downsampling.t) (x : Tensor) :
  Downsampling.eval m x =
  (y <- Downsampling.main_path m x ;;
   b <- Downsampling.branch_path m x ;;
   tensor_add y b).
Proof.
  unfold Downsampling.eval, Downsampling.main_path, Downsampling.branch_path.
  cbv zeta. destruct (CovSepBlock.eval (Downsampling.sepconv m) x); reflexivity.
Qed.

Lemma Downsampling_eval_shape (m : Downsampling.t) (cin cout : nat)
  (x : Tensor) (B H W : nat) :
  Downsampling_built m cin cout ->
  shape x = mkShape B cin H W ->
  0 < H -> 0 < W -> H mod 2 = 0 -> W mod 2 = 0 ->
  exists y, Downsampling.eval m x = Ok y /\
            shape y = mkShape B cout (H / 2) (W / 2).
Proof.
  intros Hm Hx HH HW EH EW.
  destruct (Downsampling_paths_shape _ _ _ _ _ _ _ Hm Hx HH HW EH EW)
    as (y & b & Ey & Hy & Eb & Hb).
  rewrite Downsampling_eval_paths, Ey, Eb. cbn [bind Monad_result].
  destruct (tensor_add_shape y b) as (z & -> & Hz); [congruence|].
  eexists; split; [reflexivity | congruence].
Qed.

Lemma Upsampling_eval_shape (m : Upsampling.t) (cin cout : nat)
  (x : Tensor) (B H W : nat) :
  Upsampling_built m cin cout 2 ->
  shape x = mkShape B cin H W -> 0 < H -> 0 < W ->
  exists y, Upsampling.eval m x = Ok y /\
            shape y = mkShape B cout (2 * H) (2 * W).
Proof.
  intros (Hi & Ho & Hk & Hs) Hx HH HW.
  unfold Upsampling.eval, ConvTranspose2d.apply.
  rewrite Hx, Hi, Ho, Hk, Hs. cbn [sB sC sH sW].
  rewrite Nat.eqb_refl. cbn [negb Nat.eqb].
  rewrite spatially_empty_pos by assumption.
  destruct (Nat.ltb_spec (H * 2 + 2) 2); [lia|].
  destruct (Nat.ltb_spec (W * 2 + 2) 2); [lia|]. cbn [orb].
  eexists; split; [reflexivity|].
  unfold ConvTranspose2d.out_size. cbn [shape tabulate]. f_equal; lia.
Qed.

Lemma Decoder_eval_shape (m : Decoder.t) (c : nat) (x : Tensor) (B H W : nat) :
  Decoder_built m c c ->
  shape x = mkShape B c H W -> 0 < H -> 0 < W ->
  exists y, Decoder.eval m x = Ok y /\ shape y = mkShape B c H W.
Proof.
  intros (H1 & H2) Hx HH HW. unfold Decoder.eval.
  destruct (CovSepBlock_eval_shape _ _ _ _ _ _ _ _ _ _ H1 Hx)
    as (y1 & -> & Hy1 & _); try lia.
  rewrite !out_size_3_1_1 in Hy1 by assumption.
  cbn [bind Monad_result].
  destruct (CovSepBlock_eval_shape _ _ _ _ _ _ (tensor_relu y1) _ _ _ H2 Hy1)
    as (y2 & -> & Hy2 & _); try lia.
  rewrite !out_size_3_1_1 in Hy2 by assumption.
  cbn [bind Monad_result].
  destruct (tensor_add_shape y2 x) as (z & -> & Hz); [congruence|].
  eexists; split; [reflexivity | congruence].
Qed.

Lemma repeat_eval_shape (e : Encoder.t) (c : nat) (n : nat) :
  Encoder_built e c c ->
  forall (x : Tensor) (B H W : nat),
    shape x = mkShape B c H W -> 0 < H -> 0 < W ->
    exists y, EncoderStage.repeat_eval n e x = Ok y /\
              shape y = mkShape B c H W.
Proof.
  intros He. induction n as [|n IH]; intros x B H W Hx HH HW; simpl.
  - eauto.
  - destruct (Encoder_eval_shape _ _ _ _ _ _ _ He Hx HH HW) as (y & -> & Hy).
    apply (IH y B H W Hy HH HW).
Qed.

Lemma EncoderStage_eval_shape (m : EncoderStage.t) (cin cout n : nat)
  (x : Tensor) (B H W : nat) :
  EncoderStage_built m cin cout n ->
  shape x = mkShape B cin (2 * H) (2 * W) -> 0 < H -> 0 < W ->
  exists y, EncoderStage.eval m x = Ok y /\ shape y = mkShape B cout H W.
Proof.
  intros (He & Hd & Hn) Hx HH HW. unfold EncoderStage.eval.
  destruct (Downsampling_eval_shape _ _ _ _ _ _ _ Hd Hx) as (y & -> & Hy);
    try lia.
  replace (2 * H / 2) with H in Hy by lia.
  replace (2 * W / 2) with W in Hy by lia.
  cbn [bind Monad_result].
  apply (repeat_eval_shape _ _ _ He y B H W Hy HH HW).
Qed.

Lemma DecoderStage_eval_shape (m : DecoderStage.t) (cin cout skip : nat)
  (x k : Tensor) (B H W : nat) :
  DecoderStage_built m cin cout skip ->
  shape x = mkShape B cin H W ->
  shape k = mkShape B skip (2 * H) (2 * W) ->
  0 < H -> 0 < W ->
  exists y, DecoderStage.eval m (x, k) = Ok y /\
            shape y = mkShape B cout (2 * H) (2 * W).
Proof.
  intros (Hd & Hu & Hs) Hx Hk HH HW. unfold DecoderStage.eval.
  destruct (Decoder_eval_shape _ _ _ _ _ _ Hd Hx HH HW) as (y1 & -> & Hy1).
  cbn [bind Monad_result].
  destruct (Upsampling_eval_shape _ _ _ _ _ _ _ Hu Hy1 HH HW) as (y2 & -> & Hy2).
  cbn [bind Monad_result].
  destruct (CovSepBlock_eval_shape _ _ _ _ _ _ _ _ _ _ Hs Hk)
    as (y3 & -> & Hy3 & _); try lia.
  rewrite !out_size_3_1_1 in Hy3 by lia.
  cbn [bind Monad_result].
  destruct (tensor_add_shape y2 (tensor_relu y3)) as (z & -> & Hz);
    [rewrite tensor_relu_shape; congruence|].
  eexists; split; [reflexivity | congruence].
Qed.

Lemma check_channels_Ok (x : Tensor) (n B H W : nat) :
  shape x = mkShape B n H W -> check_channels x n = Ok tt.
Proof.
  intros Hx. unfold check_channels. rewrite Hx. cbn [sC].
  rewrite Nat.eqb_refl. reflexivity.
Qed.

(** On an image of [16h x 16w] pixels every stage succeeds with the
    channel count asserted after it, and the network returns the sum of
    the last convolution and the image. *)
Lemma SimpleNet_eval_head (m : SimpleNet.t) (t : Tensor) (B h w : nat) :
  SimpleNet_built m ->
  shape t = mkShape B 4 (2 * (2 * (2 * (2 * h)))) (2 * (2 * (2 * (2 * w)))) ->
  0 < h -> 0 < w ->
  channel_checkpoints m t /\
  exists d c dout,
    SimpleNet.output_layer m = [Sequential.LDecoder d; Sequential.LConv2d c] /\
    SimpleNet.eval m t =
    tensor_add (tabulate (shape t) (Conv2d.entry c dout)) t.
Proof.
  intros (Hc & He1 & He2 & He3 & He4 & Hd1 & Hd2 & Hd3 & Hd4 &
          d & c & Hout & Hd & Hcv) Hx Hh Hw.
  pose proof (Conv2d_apply_Ok _ _ _ _ _ _ _ _ _ _ Hc Hx) as Epre0.
  rewrite !out_size_3_1_1 in Epre0 by lia.
  specialize (Epre0 ltac:(lia) ltac:(lia) ltac:(lia) ltac:(lia) ltac:(lia)).
  set (pre0 := tabulate _ (Conv2d.entry (SimpleNet.conv m) t)) in Epre0.
  assert (Hpre : shape (tensor_relu pre0) =
            mkShape B 16 (2 * (2 * (2 * (2 * h)))) (2 * (2 * (2 * (2 * w)))))
    by reflexivity.
  clearbody pre0.
  destruct (EncoderStage_eval_shape _ _ _ _ _ _ _ _ He1 Hpre)
    as (first & Efirst & Hfirst); try lia.
  destruct (EncoderStage_eval_shape _ _ _ _ _ _ _ _ He2 Hfirst)
    as (second & Esecond & Hsecond); try lia.
  destruct (EncoderStage_eval_shape _ _ _ _ _ _ _ _ He3 Hsecond)
    as (third & Ethird & Hthird); try lia.
  destruct (EncoderStage_eval_shape _ _ _ _ _ _ _ _ He4 Hthird)
    as (fourth & Efourth & Hfourth); try lia.
  destruct (DecoderStage_eval_shape _ _ _ _ _ _ _ _ _ Hd1 Hfourth Hthird)
    as (de1 & Ede1 & Hde1); try lia.
  destruct (DecoderStage_eval_shape _ _ _ _ _ _ _ _ _ Hd2 Hde1 Hsecond)
    as (de2 & Ede2 & Hde2); try lia.
  destruct (DecoderStage_eval_shape _ _ _ _ _ _ _ _ _ Hd3 Hde2 Hfirst)
    as (de3 & Ede3 & Hde3); try lia.
  destruct (DecoderStage_eval_shape _ _ _ _ _ _ _ _ _ Hd4 Hde3 Hpre)
    as (de4 & Ede4 & Hde4); try lia.
  destruct (Decoder_eval_shape _ _ _ _ _ _ Hd Hde4) as (dout & Edout & Hdout);
    try lia.
  pose proof (Conv2d_apply_Ok _ _ _ _ _ _ _ _ _ _ Hcv Hdout) as Eout.
  rewrite !out_size_3_1_1 in Eout by lia.
  specialize (Eout ltac:(lia) ltac:(lia) ltac:(lia) ltac:(lia) ltac:(lia)).
  rewrite <- Hx in Eout.
  assert (Eseq : Sequential.eval (SimpleNet.output_layer m) de4 =
                 Ok (tabulate (shape t) (Conv2d.entry c dout))).
  { rewrite Hout. cbn [Sequential.eval Sequential.layer_eval].
    rewrite Edout. cbn [bind Monad_result]. rewrite Eout. reflexivity. }
  assert (Eeval : SimpleNet.eval m t =
                  tensor_add (tabulate (shape t) (Conv2d.entry c dout)) t).
  { unfold SimpleNet.eval.
    rewrite (check_channels_Ok _ _ _ _ _ Hx), Epre0. cbn [bind Monad_result].
    cbv zeta.
    rewrite (check_channels_Ok _ _ _ _ _ Hpre), Efirst. cbn [bind Monad_result].
    rewrite (check_channels_Ok _ _ _ _ _ Hfirst), Esecond. cbn [bind Monad_result].
    rewrite (check_channels_Ok _ _ _ _ _ Hsecond), Ethird. cbn [bind Monad_result].
    rewrite (check_channels_Ok _ _ _ _ _ Hthird), Efourth. cbn [bind Monad_result].
    rewrite (check_channels_Ok _ _ _ _ _ Hfourth), Ede1. cbn [bind Monad_result].
    rewrite (check_channels_Ok _ _ _ _ _ Hde1), Ede2. cbn [bind Monad_result].
    rewrite (check_channels_Ok _ _ _ _ _ Hde2), Ede3. cbn [bind Monad_result].
    rewrite (check_channels_Ok _ _ _ _ _ Hde3), Ede4. cbn [bind Monad_result].
    rewrite (check_channels_Ok _ _ _ _ _ Hde4), Eseq. cbn [bind Monad_result].
    rewrite (check_channels_Ok _ 4 B (sH (shape t)) (sW (shape t)))
      by (cbn [shape tabulate]; rewrite Hx; reflexivity).
    reflexivity. }
  split.
  - exists pre0, first, second, third, fourth, de1, de2, de3, de4,
      (tabulate (shape t) (Conv2d.entry c dout)).
    cbv zeta.
    rewrite Hx, Hpre, Hfirst, Hsecond, Hthird, Hfourth, Hde1, Hde2, Hde3, Hde4.
    cbn [sC shape tabulate].
    rewrite <- Hx.
    repeat (split; [first [assumption | reflexivity]|]).
    exact Eeval.
  - exists d, c, dout. split; assumption.
Qed.

(** ** The network on valid images *)

Lemma SimpleNet_built_output_layer (m : SimpleNet.t) :
  SimpleNet_built m -> SimpleNet.output_layer m <> [].
Proof.
  intros (_ & _ & _ & _ & _ & _ & _ & _ & _ & d & c & E & _).
  rewrite E. discriminate.
Qed.

(** On an image whose height and width are positive multiples of 16,
    [forward] returns the last convolution of the output head plus the
    image. *)
Lemma SimpleNet_forward_valid (m : SimpleNet.t) (s : store) (img : loc)
  (t : Tensor) (B H W : nat) :
  SimpleNet_built m ->
  s !! img = Some t ->
  shape t = mkShape B 4 H W ->
  0 < H -> 0 < W -> H mod 16 = 0 -> W mod 16 = 0 ->
  channel_checkpoints m t /\
  exists d c dout,
    SimpleNet.output_layer m = [Sequential.LDecoder d; Sequential.LConv2d c] /\
    runs (SimpleNet.forward m img) s
         (tensor_add (tabulate (shape t) (Conv2d.entry c dout)) t).
Proof.
  intros Hm Hs Hx HH HW EH EW.
  assert (Hx' : shape t = mkShape B 4 (2 * (2 * (2 * (2 * (H / 16)))))
                                      (2 * (2 * (2 * (2 * (W / 16))))))
    by (rewrite Hx; f_equal; lia).
  destruct (SimpleNet_eval_head m t B (H / 16) (W / 16) Hm Hx')
    as (Hcp & d & c & dout & Hout & E); try lia.
  split; [exact Hcp|].
  exists d, c, dout. split; [exact Hout|].
  rewrite <- E. apply SimpleNet_forward_runs;
    [apply SimpleNet_built_output_layer; exact Hm | exact Hs].
Qed.

(** A convolution rejects an image that is empty in height or width. *)
Lemma SimpleNet_eval_empty (m : SimpleNet.t) (t : Tensor) :
  SimpleNet_built m ->
  sC (shape t) = 4 ->
  sH (shape t) = 0 \/ sW (shape t) = 0 ->
  SimpleNet.eval m t = Err RuntimeError.
Proof.
  intros ((Hi & Ho & Hk & Hs & Hp) & _) Hc Hz.
  unfold SimpleNet.eval, check_channels. rewrite Hc. cbn [Nat.eqb bind Monad_result].
  unfold Conv2d.apply. rewrite Hi, Hk, Hs, Hp, Hc. cbn [Nat.eqb negb].
  destruct (Nat.ltb_spec (sH (shape t) + 2 * 1) 3);
    destruct (Nat.ltb_spec (sW (shape t) + 2 * 1) 3);
    try reflexivity; lia.
Qed.


(** ** C1: shape preservation *)

(** C1 (as amended): for every input tensor of shape (B, 4, H, W) with H
    and W positive multiples of 16, [SimpleNet.forward] returns a tensor of
    exactly the same shape. *)
Theorem C1_forward_preserves_shape
  (init : Init) (n n' : nat) (m : SimpleNet.t) (s : store) (img : loc)
  (t : Tensor) (B H W : nat) :
  SimpleNet.init init n = (Ok m, n') ->
  s !! img = Some t ->
  shape t = mkShape B 4 H W ->
  0 < H -> 0 < W -> H mod 16 = 0 -> W mod 16 = 0 ->
  exists y out,
    fst (SimpleNet.forward m img s) = Ok y /\
    snd (SimpleNet.forward m img s) !! y = Some out /\
    shape out = mkShape B 4 H W.
Proof.
  intros Hinit Hs Hx HH HW EH EW.
  apply SimpleNet_init_inv in Hinit.
  destruct (SimpleNet_forward_valid m s img t B H W Hinit Hs Hx HH HW EH EW)
    as (_ & d & c & dout & _ & Hrun).
  destruct (tensor_add_shape (tabulate (shape t) (Conv2d.entry c dout)) t)
    as (out & E & Hout); [reflexivity|].
  rewrite E in Hrun. destruct (runs_Ok _ _ _ Hrun) as (y & Ey & Ly).
  exists y, out. repeat split; [exact Ey | exact Ly |].
  rewrite Hout. exact Hx.
Qed.

Lemma C1_forward_preserves_shape_witness :
  exists m,
    SimpleNet.init init_zero 0 = (Ok m, 114) /\
    exists y out,
      fst (SimpleNet.forward m 0 [image16]) = Ok y /\
      snd (SimpleNet.forward m 0 [image16]) !! y = Some out /\
      shape out = mkShape 1 4 16 16.
Proof.
  eexists; split; [vm_compute; reflexivity|].
  apply (C1_forward_preserves_shape init_zero 0 114 _ [image16] 0 image16
           1 16 16);
    [ vm_compute; reflexivity | reflexivity | reflexivity
    | lia | lia | reflexivity | reflexivity ].
Defined.

(** C1 as stated fails on the image of shape (1, 4, 0, 0): 0 is divisible
    by 16, and the first convolution raises. *)
Lemma C1_empty_image_raises :
  exists m,
    SimpleNet.init init_zero 0 = (Ok m, 114) /\
    shape empty_image = mkShape 1 4 0 0 /\
    0 mod 16 = 0 /\
    SimpleNet.forward m 0 [empty_image] = (Err RuntimeError, [empty_image]).
Proof.
  eexists; split; [vm_compute; reflexivity|].
  split; [reflexivity|]. split; [reflexivity|].
  vm_compute. reflexivity.
Qed.

(** ** C2: global residual identity *)



(** ** C3: the repetition inside an encoder stage *)

Lemma for_range_apply_seq (e : Encoder.t) (n : nat) :
  forall (x : loc) (s : store),
    for_range n (fun x => Encoder.forward e x) x s =
    apply_seq (repeat e n) x s.
Proof.
  induction n as [|n IH]; intros x s; cbn [for_range repeat apply_seq];
    [reflexivity|].
  rewrite !bind_Fwd. destruct (Encoder.forward e x s) as [[y|err] s'];
    [apply IH | reflexivity].
Qed.

(** C3 (as amended): in every EncoderStage with repetition count N,
    [forward] applies Downsampling(C_in->C_out) once and then
    Encoder(C_out->C_out) exactly N times; the N applications all go
    through the single Encoder instance the stage constructs, so they share
    one set of weights. *)
Theorem C3_stage_applies_one_encoder_N_times
  (cin cout N : nat) (init : Init) (n n' : nat) (st : EncoderStage.t) :
  EncoderStage.init cin cout N init n = (Ok st, n') ->
  Downsampling_built (EncoderStage.downsampling st) cin cout /\
  Encoder_built (EncoderStage.encoder st) cout cout /\
  EncoderStage.applied st = repeat (EncoderStage.encoder st) N /\
  Forall (fun e => e = EncoderStage.encoder st) (EncoderStage.applied st) /\
  forall (x : loc) (s : store),
    EncoderStage.forward st x s =
    (y <- Downsampling.forward (EncoderStage.downsampling st) x ;;
     apply_seq (EncoderStage.applied st) y) s.
Proof.
  intros Hinit. apply EncoderStage_init_inv in Hinit.
  destruct Hinit as (He & Hd & Hn).
  split; [exact Hd|]. split; [exact He|].
  unfold EncoderStage.applied. rewrite Hn.
  split; [reflexivity|]. split.
  - apply Forall_forall. intros e Hin.
    apply list_elem_of_In, repeat_spec in Hin. exact Hin.
  - intros x s. unfold EncoderStage.forward. rewrite Hn, !bind_Fwd.
    destruct (Downsampling.forward (EncoderStage.downsampling st) x s)
      as [[y|err] s']; [apply for_range_apply_seq | reflexivity].
Qed.

Lemma C3_stage_applies_one_encoder_N_times_witness :
  exists st n',
    EncoderStage.init 128 256 3 init_zero 0 = (Ok st, n') /\
    EncoderStage.applied st =
      [EncoderStage.encoder st; EncoderStage.encoder st;
       EncoderStage.encoder st] /\
    forall (x : loc) (s : store),
      EncoderStage.forward st x s =
      (y <- Downsampling.forward (EncoderStage.downsampling st) x ;;
       apply_seq (EncoderStage.applied st) y) s.
Proof.
  eexists _, _; split; [vm_compute; reflexivity|].
  pose proof (C3_stage_applies_one_encoder_N_times 128 256 3 init_zero 0 _ _
                ltac:(vm_compute; reflexivity)) as (_ & _ & Ha & _ & Hf).
  split; [exact Ha | exact Hf].
Defined.

(** C3 as stated fails on the third stage of the network,
    EncoderStage(128, 256, 3): the three applications are one instance,
    not three independently constructed ones. *)
Lemma C3_applied_instances_shared :
  exists st n',
    EncoderStage.init 128 256 3 init_zero 0 = (Ok st, n') /\
    length (EncoderStage.applied st) = 3 /\
    ~ independent (EncoderStage.applied st).
Proof.
  eexists _, _; split; [vm_compute; reflexivity|].
  split; [reflexivity|].
  unfold independent. apply (bool_decide_unpack _). vm_compute. exact I.
Qed.

(** Three encoders constructed one after the other, as the specification
    words the stage, are independent. *)
Lemma construct_encoders_independent :
  exists es n',
    construct_encoders 3 256 init_zero 0 = (Ok es, n') /\
    length es = 3 /\ independent es.
Proof.
  eexists _, _; split; [vm_compute; reflexivity|].
  split; [reflexivity|].
  unfold independent. apply (bool_decide_unpack _). vm_compute. exact I.
Qed.

(** ** C4: downsampling halves height and width *)

(** C4 (as amended): for every input of shape (B, C_in, H, W) with H and W
    even and positive, the main path and the branch path of Downsampling
    each produce spatial dimensions (H/2, W/2), and the summed output that
    [forward] returns has shape (B, C_out, H/2, W/2). *)
Theorem C4_downsampling_halves
  (cin cout : nat) (init : Init) (n n' : nat) (m : Downsampling.t)
  (s : store) (x : loc) (t : Tensor) (B H W : nat) :
  Downsampling.init cin cout init n = (Ok m, n') ->
  s !! x = Some t ->
  shape t = mkShape B cin H W ->
  0 < H -> 0 < W -> H mod 2 = 0 -> W mod 2 = 0 ->
  exists main branch y out,
    Downsampling.main_path m t = Ok main /\
    shape main = mkShape B cout (H / 2) (W / 2) /\
    Downsampling.branch_path m t = Ok branch /\
    shape branch = mkShape B cout (H / 2) (W / 2) /\
    tensor_add main branch = Ok out /\
    fst (Downsampling.forward m x s) = Ok y /\
    snd (Downsampling.forward m x s) !! y = Some out /\
    shape out = mkShape B cout (H / 2) (W / 2).
Proof.
  intros Hinit Hs Hx HH HW EH EW.
  apply Downsampling_init_inv in Hinit. destruct Hinit as (Hm & _ & _).
  destruct (Downsampling_paths_shape _ _ _ _ _ _ _ Hm Hx HH HW EH EW)
    as (main & branch & Emain & Hmain & Ebranch & Hbranch).
  destruct (tensor_add_shape main branch) as (out & Eout & Hout);
    [congruence|].
  pose proof (Downsampling_forward_runs m s x t Hs) as Hrun.
  rewrite Downsampling_eval_paths, Emain, Ebranch in Hrun.
  cbn [bind Monad_result] in Hrun. rewrite Eout in Hrun.
  destruct (runs_Ok _ _ _ Hrun) as (y & Ey & Ly).
  exists main, branch, y, out.
  repeat split; try assumption. congruence.
Qed.

Lemma C4_downsampling_halves_witness :
  exists m n',
    Downsampling.init 16 64 init_zero 0 = (Ok m, n') /\
    exists main branch y out,
      Downsampling.main_path m (zeros (mkShape 1 16 4 6)) = Ok main /\
      shape main = mkShape 1 64 (4 / 2) (6 / 2) /\
      Downsampling.branch_path m (zeros (mkShape 1 16 4 6)) = Ok branch /\
      shape branch = mkShape 1 64 (4 / 2) (6 / 2) /\
      tensor_add main branch = Ok out /\
      fst (Downsampling.forward m 0 [zeros (mkShape 1 16 4 6)]) = Ok y /\
      snd (Downsampling.forward m 0 [zeros (mkShape 1 16 4 6)]) !! y = Some out /\
      shape out = mkShape 1 64 (4 / 2) (6 / 2).
Proof.
  eexists _, _; split; [vm_compute; reflexivity|].
  eapply (C4_downsampling_halves 16 64 init_zero 0 _ _
           [zeros (mkShape 1 16 4 6)] 0 (zeros (mkShape 1 16 4 6)) 1 4 6);
    [ vm_compute; reflexivity | reflexivity | reflexivity
    | lia | lia | reflexivity | reflexivity ].
Defined.

(** C4 as stated fails on an input of shape (1, 16, 0, 0): 0 is even, and
    both paths raise. *)
Lemma C4_empty_input_raises :
  exists m n',
    Downsampling.init 16 64 init_zero 0 = (Ok m, n') /\
    shape (zeros (mkShape 1 16 0 0)) = mkShape 1 16 0 0 /\
    0 mod 2 = 0 /\
    Downsampling.main_path m (zeros (mkShape 1 16 0 0)) = Err RuntimeError /\
    Downsampling.branch_path m (zeros (mkShape 1 16 0 0)) = Err RuntimeError /\
    fst (Downsampling.forward m 0 [zeros (mkShape 1 16 0 0)]) =
      Err RuntimeError.
Proof.
  eexists _, _; split; [vm_compute; reflexivity|].
  split; [reflexivity|]. split; [reflexivity|].
  split; [vm_compute; reflexivity|].
  split; [vm_compute; reflexivity|].
  vm_compute. reflexivity.
Qed.

(** ** C5: upsampling doubles height and width *)




(** ** C6: the identity shortcut of Encoder *)






(** The identity on a concrete input, by evaluation: the negative entries
    become zero, the others are unchanged, and the input is still there. *)
Example Encoder_shortcut_example :
  exists m n',
    Encoder.init 4 4 init_zero 0 = (Ok m, n') /\
    returned (Encoder.forward m 0 [sample_features]) =
      Some {| shape := mkShape 1 4 1 2;
              data := [3; 0; 0; 0; 5; 2; 0; 6]%Z |} /\
    snd (Encoder.forward m 0 [sample_features]) !! 0 = Some sample_features.
Proof.
  eexists _, _; split; [vm_compute; reflexivity|].
  split; vm_compute; reflexivity.
Qed.

(** ** C7: the channel assertions *)

(** C7: for every input of shape (B, 4, H, W) with H and W divisible by 16
    no [assert] of [SimpleNet.forward] fails: the assertion-failure branch
    is unreachable.  When H and W are positive [forward] returns, so all its
    assertions were evaluated and held, and the channel count is 4 at the
    input, 16 after the stem, 64/128/256/512 after encoder stages 1-4,
    64/32/32/16 after decoder stages 1-4 and 4 at the output head. *)
Theorem C7_assertions_hold
  (init : Init) (n n' : nat) (m : SimpleNet.t) (s : store) (img : loc)
  (t : Tensor) :
  SimpleNet.init init n = (Ok m, n') ->
  s !! img = Some t ->
  sC (shape t) = 4 ->
  sH (shape t) mod 16 = 0 -> sW (shape t) mod 16 = 0 ->
  fst (SimpleNet.forward m img s) <> Err AssertionError /\
  (0 < sH (shape t) -> 0 < sW (shape t) ->
   (exists y, fst (SimpleNet.forward m img s) = Ok y) /\
   channel_checkpoints m t).
Proof.
  intros Hinit Hs Hc EH EW.
  apply SimpleNet_init_inv in Hinit.
  assert (Hx : shape t = mkShape (sB (shape t)) 4 (sH (shape t)) (sW (shape t)))
    by (destruct (shape t); simpl in *; congruence).
  assert (Hpos : 0 < sH (shape t) -> 0 < sW (shape t) ->
                 (exists y, fst (SimpleNet.forward m img s) = Ok y) /\
                 channel_checkpoints m t).
  { intros HH HW.
    destruct (SimpleNet_forward_valid m s img t _ _ _ Hinit Hs Hx HH HW EH EW)
      as (Hcp & d & c & dout & _ & Hrun).
    split; [|exact Hcp].
    destruct (tensor_add_shape (tabulate (shape t) (Conv2d.entry c dout)) t)
      as (out & E & _); [reflexivity|].
    rewrite E in Hrun. destruct (runs_Ok _ _ _ Hrun) as (y & Ey & _). eauto. }
  split; [|exact Hpos].
  destruct (Nat.eq_dec (sH (shape t)) 0) as [HH|HH];
    [|destruct (Nat.eq_dec (sW (shape t)) 0) as [HW|HW]].
  - pose proof (SimpleNet_forward_runs m s img t
                  (SimpleNet_built_output_layer m Hinit) Hs) as Hrun.
    rewrite (SimpleNet_eval_empty m t Hinit Hc (or_introl HH)) in Hrun.
    rewrite (runs_Err _ _ _ Hrun). discriminate.
  - pose proof (SimpleNet_forward_runs m s img t
                  (SimpleNet_built_output_layer m Hinit) Hs) as Hrun.
    rewrite (SimpleNet_eval_empty m t Hinit Hc (or_intror HW)) in Hrun.
    rewrite (runs_Err _ _ _ Hrun). discriminate.
  - destruct Hpos as ((y & Ey) & _); [lia | lia |]. rewrite Ey. discriminate.
Qed.

Lemma C7_assertions_hold_witness :
  exists m,
    SimpleNet.init init_zero 0 = (Ok m, 114) /\
    fst (SimpleNet.forward m 0 [image16]) <> Err AssertionError /\
    (exists y, fst (SimpleNet.forward m 0 [image16]) = Ok y) /\
    channel_checkpoints m image16.
Proof.
  eexists; split; [vm_compute; reflexivity|].
  match goal with
  | |- fst (SimpleNet.forward ?m _ _) <> _ /\ _ =>
      destruct (C7_assertions_hold init_zero 0 114 m [image16] 0 image16)
        as (Hne & Hex)
  end.
  - vm_compute; reflexivity.
  - reflexivity.
  - reflexivity.
  - reflexivity.
  - reflexivity.
  - split; [exact Hne|]. apply Hex; cbn; lia.
Defined.

(** The assertions are live: an image with three channels fails the
    first one. *)
Example three_channels_fail_assertion :
  exists m,
    SimpleNet.init init_zero 0 = (Ok m, 114) /\
    fst (SimpleNet.forward m 0 [zeros (mkShape 1 3 16 16)]) =
      Err AssertionError.
Proof.
  eexists; split; [vm_compute; reflexivity|]. vm_compute; reflexivity.
Qed.

(** ** C8: bottleneck channel count *)

(** C8 (as amended): constructing an Encoder or a Downsampling with a
    positive in-channel count and an out-channel count C_out >= 4, divisible
    by 4 or not, raises no error, and the internal bottleneck channel count
    is the truncated quotient C_out // 4; with C_out in 1..3 the quotient is
    0 and the constructor raises ValueError. *)
Theorem C8_bottleneck_truncates
  (cin cout : nat) (init : Init) (n : nat) :
  0 < cin ->
  (4 <= cout ->
   (exists m n',
      Encoder.init cin cout init n = (Ok m, n') /\
      Conv2d.out_channels (CovSepBlock.pc (Encoder.sepconv m)) = cout / 4 /\
      Conv2d.in_channels (CovSepBlock.dc (Encoder.sepconv2 m)) = cout / 4) /\
   (exists m n',
      Downsampling.init cin cout init n = (Ok m, n') /\
      Conv2d.out_channels (CovSepBlock.pc (Downsampling.sepconv m)) = cout / 4 /\
      Conv2d.in_channels (CovSepBlock.dc (Downsampling.sepconv2 m)) = cout / 4)) /\
  (cout < 4 ->
   fst (Encoder.init cin cout init n) = Err ValueError /\
   fst (Downsampling.init cin cout init n) = Err ValueError).
Proof.
  intros Hi. split.
  - intros Ho. split.
    + destruct (Encoder_init_ok cin cout init n Hi Ho) as (m & n' & E).
      exists m, n'. split; [exact E|].
      apply Encoder_init_inv in E.
      destruct E as (((_ & (_ & Hp & _)) & ((Hd & _) & _) & _) & _).
      split; assumption.
    + destruct (Downsampling_init_ok cin cout init n Hi Ho) as (m & n' & E).
      exists m, n'. split; [exact E|].
      apply Downsampling_init_inv in E.
      destruct E as (((_ & (_ & Hp & _)) & ((Hd & _) & _) & _) & _).
      split; assumption.
  - intros Ho. split;
      [apply Encoder_init_small | apply Downsampling_init_small]; assumption.
Qed.

Lemma C8_bottleneck_truncates_witness :
  (exists m n',
     Encoder.init 16 6 init_zero 0 = (Ok m, n') /\
     Conv2d.out_channels (CovSepBlock.pc (Encoder.sepconv m)) = 6 / 4 /\
     Conv2d.in_channels (CovSepBlock.dc (Encoder.sepconv2 m)) = 6 / 4) /\
  (exists m n',
     Downsampling.init 16 6 init_zero 0 = (Ok m, n') /\
     Conv2d.out_channels (CovSepBlock.pc (Downsampling.sepconv m)) = 6 / 4 /\
     Conv2d.in_channels (CovSepBlock.dc (Downsampling.sepconv2 m)) = 6 / 4).
Proof.
  destruct (C8_bottleneck_truncates 16 6 init_zero 0) as [Hok _]; [lia|].
  apply Hok. lia.
Defined.

(** C8 as stated fails for C_out = 3, which is not divisible by 4: the
    constructors raise. *)
Lemma C8_small_out_channels_raise :
  3 mod 4 <> 0 /\
  fst (Encoder.init 3 3 init_zero 0) = Err ValueError /\
  fst (Downsampling.init 16 3 init_zero 0) = Err ValueError.
Proof.
  split; [discriminate|]. split; vm_compute; reflexivity.
Qed.

(** ** C9 and C10: determinism and the frame of [forward] *)

Lemma forward_dangling (m : SimpleNet.t) (s : store) (img : loc) :
  s !! img = None -> SimpleNet.forward m img s = (Err ReferenceError, s).
Proof.
  intros H. unfold SimpleNet.forward, assert_channels, shape1.
  rewrite !bind_Fwd. unfold read. rewrite H. reflexivity.
Qed.

Lemma SimpleNet_forward_frame (m : SimpleNet.t) (s : store) (img l : loc)
  (v : Tensor) :
  SimpleNet_built m ->
  s !! l = Some v -> snd (SimpleNet.forward m img s) !! l = Some v.
Proof.
  intros Hm Hl. destruct (s !! img) as [t|] eqn:Hs.
  - eapply runs_frame; [|exact Hl].
    apply SimpleNet_forward_runs;
      [apply SimpleNet_built_output_layer; exact Hm | exact Hs].
  - rewrite forward_dangling by exact Hs. exact Hl.
Qed.

(** C9: with fixed weights, a SeparableConvBlock and the whole
    [SimpleNet.forward] are deterministic functions of their input: two
    evaluations on equal input tensors, in whatever stores and at whatever
    addresses, end alike (equal output tensors, or the same exception), a
    second evaluation after the first one included; and an evaluation
    changes no tensor that existed before it. *)
Theorem C9_forward_deterministic
  (b : CovSepBlock.t) (init : Init) (n n' : nat) (m : SimpleNet.t)
  (s1 s2 : store) (x1 x2 l : loc) (t v : Tensor) :
  SimpleNet.init init n = (Ok m, n') ->
  s1 !! x1 = Some t ->
  s2 !! x2 = Some t ->
  s1 !! l = Some v ->
  (same_outcome (CovSepBlock.forward b x1 s1) (CovSepBlock.forward b x2 s2) /\
   snd (CovSepBlock.forward b x1 s1) !! l = Some v) /\
  (same_outcome (SimpleNet.forward m x1 s1) (SimpleNet.forward m x2 s2) /\
   same_outcome (SimpleNet.forward m x1 s1)
                (SimpleNet.forward m x1 (snd (SimpleNet.forward m x1 s1))) /\
   snd (SimpleNet.forward m x1 s1) !! l = Some v).
Proof.
  intros Hinit H1 H2 Hl. apply SimpleNet_init_inv in Hinit.
  pose proof (SimpleNet_built_output_layer m Hinit) as Hne.
  split; [split | split; [|split]].
  - eapply runs_same_outcome; apply CovSepBlock_forward_runs; eassumption.
  - eapply runs_frame; [apply CovSepBlock_forward_runs|]; eassumption.
  - eapply runs_same_outcome; apply SimpleNet_forward_runs; eassumption.
  - eapply runs_same_outcome; apply SimpleNet_forward_runs; try eassumption.
    apply SimpleNet_forward_frame; assumption.
  - apply SimpleNet_forward_frame; assumption.
Qed.

Lemma C9_forward_deterministic_witness :
  exists m b n',
    SimpleNet.init init_zero 0 = (Ok m, 114) /\
    CovSepBlock.init 4 8 3 1 1 init_zero 0 = (Ok b, n') /\
    same_outcome (CovSepBlock.forward b 0 [sample_features])
                 (CovSepBlock.forward b 1 [image16; sample_features]) /\
    same_outcome (SimpleNet.forward m 0 [image16])
                 (SimpleNet.forward m 1 [sample_features; image16]) /\
    same_outcome (SimpleNet.forward m 0 [image16])
                 (SimpleNet.forward m 0 (snd (SimpleNet.forward m 0 [image16]))).
Proof.
  eexists _, _, _; split; [vm_compute; reflexivity|].
  split; [vm_compute; reflexivity|].
  match goal with
  | |- same_outcome (CovSepBlock.forward ?b _ _) _ /\
       same_outcome (SimpleNet.forward ?m _ _) _ /\ _ =>
      pose proof (C9_forward_deterministic b init_zero 0 114 m
                    [sample_features] [image16; sample_features] 0 1 0
                    sample_features sample_features
                    ltac:(vm_compute; reflexivity) eq_refl eq_refl eq_refl)
        as [[Hb _] _];
      pose proof (C9_forward_deterministic b init_zero 0 114 m
                    [image16] [sample_features; image16] 0 1 0
                    image16 image16
                    ltac:(vm_compute; reflexivity) eq_refl eq_refl eq_refl)
        as [_ (Hm1 & Hm2 & _)]
  end.
  split; [exact Hb|]. split; [exact Hm1 | exact Hm2].
Defined.

(** C10: [SimpleNet.forward] leaves its input tensor unchanged, and every
    other tensor that existed before the call: the in-place ReLUs and the
    in-place addition only overwrite tensors computed during the call. *)
Theorem C10_forward_keeps_input
  (init : Init) (n n' : nat) (m : SimpleNet.t) (s : store) (img l : loc)
  (t v : Tensor) :
  SimpleNet.init init n = (Ok m, n') ->
  s !! img = Some t ->
  s !! l = Some v ->
  snd (SimpleNet.forward m img s) !! img = Some t /\
  snd (SimpleNet.forward m img s) !! l = Some v.
Proof.
  intros Hinit Hs Hl. apply SimpleNet_init_inv in Hinit.
  split; apply SimpleNet_forward_frame; assumption.
Qed.

Lemma C10_forward_keeps_input_witness :
  exists m,
    SimpleNet.init init_zero 0 = (Ok m, 114) /\
    snd (SimpleNet.forward m 1 [sample_features; image16]) !! 1 =
      Some image16 /\
    snd (SimpleNet.forward m 1 [sample_features; image16]) !! 0 =
      Some sample_features.
Proof.
  eexists; split; [vm_compute; reflexivity|].
  eapply (C10_forward_keeps_input init_zero 0 114 _
            [sample_features; image16] 1 0 image16 sample_features);
    [vm_compute; reflexivity | reflexivity | reflexivity].
Defined.

(** The store model does see in-place updates: the activation applied
    directly to a caller's tensor overwrites it. *)
Example inplace_relu_overwrites :
  ReLU.forward (ReLU.mk true) 0 [sample_features] =
  (Ok 0, [tensor_relu sample_features]) /\
  tensor_relu sample_features <> sample_features.
Proof. split; [reflexivity | discriminate]. Qed.


(** * Further properties *)

(** ** Inputs of any size *)

Lemma out_size_5_2_2_any (n : nat) :
  0 < n -> Conv2d.out_size n 5 2 2 = half_up n.
Proof. intros H. unfold Conv2d.out_size, half_up. lia. Qed.

Lemma out_size_3_2_1_any (n : nat) :
  0 < n -> Conv2d.out_size n 3 2 1 = half_up n.
Proof. intros H. unfold Conv2d.out_size, half_up. lia. Qed.

Lemma half_up_pos (n : nat) : 0 < n -> 0 < half_up n.
Proof. unfold half_up. lia. Qed.

Lemma half_up_even (n : nat) : n mod 2 = 0 -> half_up n = n / 2.
Proof. unfold half_up. lia. Qed.

Lemma Downsampling_paths_any (m : Downsampling.t) (cin cout : nat)
  (x : Tensor) (B H W : nat) :
  Downsampling_built m cin cout ->
  shape x = mkShape B cin H W ->
  0 < H -> 0 < W ->
  exists y b,
    Downsampling.main_path m x = Ok y /\
    shape y = mkShape B cout (half_up H) (half_up W) /\
    Downsampling.branch_path m x = Ok b /\
    shape b = mkShape B cout (half_up H) (half_up W).
Proof.
  intros (H1 & H2 & H3) Hx HH HW.
  unfold Downsampling.main_path, Downsampling.branch_path.
  destruct (CovSepBlock_eval_shape _ _ _ _ _ _ _ _ _ _ H1 Hx)
    as (y1 & -> & Hy1 & _); try lia.
  rewrite !out_size_5_2_2_any in Hy1 by assumption.
  cbn [bind Monad_result].
  pose proof (half_up_pos H HH). pose proof (half_up_pos W HW).
  destruct (CovSepBlock_eval_shape _ _ _ _ _ _ (tensor_relu y1) _ _ _ H2 Hy1)
    as (y2 & -> & Hy2 & _); try lia.
  rewrite !out_size_5_1_2 in Hy2 by lia.
  destruct (CovSepBlock_eval_shape _ _ _ _ _ _ _ _ _ _ H3 Hx)
    as (b & -> & Hb & _); try lia.
  rewrite !out_size_3_2_1_any in Hb by assumption.
  eauto 10.
Qed.

Lemma Downsampling_eval_any (m : Downsampling.t) (cin cout : nat)
  (x : Tensor) (B H W : nat) :
  Downsampling_built m cin cout ->
  shape x = mkShape B cin H W ->
  0 < H -> 0 < W ->
  exists y, Downsampling.eval m x = Ok y /\
            shape y = mkShape B cout (half_up H) (half_up W).
Proof.
  intros Hm Hx HH HW.
  destruct (Downsampling_paths_any _ _ _ _ _ _ _ Hm Hx HH HW)
    as (y & b & Ey & Hy & Eb & Hb).
  rewrite Downsampling_eval_paths, Ey, Eb. cbn [bind Monad_result].
  destruct (tensor_add_shape y b) as (z & -> & Hz); [congruence|].
  eexists; split; [reflexivity | congruence].
Qed.

Lemma EncoderStage_eval_any (m : EncoderStage.t) (cin cout n : nat)
  (x : Tensor) (B H W : nat) :
  EncoderStage_built m cin cout n ->
  shape x = mkShape B cin H W -> 0 < H -> 0 < W ->
  exists y, EncoderStage.eval m x = Ok y /\
            shape y = mkShape B cout (half_up H) (half_up W).
Proof.
  intros (He & Hd & Hn) Hx HH HW. unfold EncoderStage.eval.
  destruct (Downsampling_eval_any _ _ _ _ _ _ _ Hd Hx HH HW) as (y & -> & Hy).
  cbn [bind Monad_result].
  apply (repeat_eval_shape _ _ _ He y B _ _ Hy);
    apply half_up_pos; assumption.
Qed.

Lemma broadcast_dim_refl (a : nat) : broadcast_dim a a = Some a.
Proof. unfold broadcast_dim. rewrite Nat.eqb_refl. reflexivity. Qed.

Lemma broadcast_dim_compat (a b : nat) :
  1 < a -> compat a b -> broadcast_dim a b = Some a.
Proof.
  intros Ha [-> | ->]; [apply broadcast_dim_refl|].
  unfold broadcast_dim.
  destruct (Nat.eqb_spec a 1); [lia|].
  destruct (Nat.eqb_spec a 1); [lia|]. reflexivity.
Qed.

Lemma broadcast_dim_incompat (a b : nat) :
  1 < a -> ~ compat a b -> broadcast_dim a b = None.
Proof.
  intros Ha Hn. unfold compat in Hn. unfold broadcast_dim.
  destruct (Nat.eqb_spec a b); [exfalso; apply Hn; auto|].
  destruct (Nat.eqb_spec a 1); [lia|].
  destruct (Nat.eqb_spec b 1); [exfalso; apply Hn; auto|]. reflexivity.
Qed.

(** The outcome of an addition is decided by the shapes. *)
Lemma tensor_add_outcome (x y : Tensor) :
  match broadcast_shape (shape x) (shape y) with
  | Some s => exists t, tensor_add x y = Ok t /\ shape t = s
  | None => tensor_add x y = Err RuntimeError
  end.
Proof.
  unfold tensor_add.
  destruct (Shape_eqb (shape x) (shape y)) eqn:E.
  - apply Shape_eqb_eq in E. rewrite <- E.
    unfold broadcast_shape. rewrite !broadcast_dim_refl.
    eexists; split; [reflexivity|]. destruct (shape x); reflexivity.
  - destruct (broadcast_shape (shape x) (shape y)) as [s|];
      [eexists; split; reflexivity | reflexivity].
Qed.

Lemma compat_dec (a b : nat) : {compat a b} + {~ compat a b}.
Proof.
  unfold compat. destruct (Nat.eq_dec b a); [left; auto|].
  destruct (Nat.eq_dec b 1); [left; auto | right; tauto].
Qed.

(** Adding a skip tensor to a tensor of the same batch and channels whose
    height and width are at least 2. *)
Lemma tensor_add_skip (x y : Tensor) (B C H W H' W' : nat) :
  shape x = mkShape B C H W -> shape y = mkShape B C H' W' ->
  1 < H -> 1 < W ->
  (compat H H' /\ compat W W' ->
   exists t, tensor_add x y = Ok t /\ shape t = mkShape B C H W) /\
  (~ (compat H H' /\ compat W W') -> tensor_add x y = Err RuntimeError).
Proof.
  intros Hx Hy HH HW.
  pose proof (tensor_add_outcome x y) as Hout.
  rewrite Hx, Hy in Hout. unfold broadcast_shape in Hout.
  cbn [sB sC sH sW] in Hout. rewrite !broadcast_dim_refl in Hout.
  split.
  - intros [cH cW].
    rewrite (broadcast_dim_compat _ _ HH cH),
            (broadcast_dim_compat _ _ HW cW) in Hout. exact Hout.
  - intros Hn. destruct (compat_dec H H') as [cH|cH].
    + rewrite (broadcast_dim_compat _ _ HH cH) in Hout.
      rewrite (broadcast_dim_incompat W W') in Hout by tauto. exact Hout.
    + rewrite (broadcast_dim_incompat H H') in Hout by tauto.
      destruct (broadcast_dim W W'); exact Hout.
Qed.

Lemma DecoderStage_eval_any (m : DecoderStage.t) (cin cout skip : nat)
  (x k : Tensor) (B h w H W : nat) :
  DecoderStage_built m cin cout skip ->
  shape x = mkShape B cin h w ->
  shape k = mkShape B skip H W ->
  0 < h -> 0 < w -> 0 < H -> 0 < W ->
  (compat (2 * h) H /\ compat (2 * w) W ->
   exists y, DecoderStage.eval m (x, k) = Ok y /\
             shape y = mkShape B cout (2 * h) (2 * w)) /\
  (~ (compat (2 * h) H /\ compat (2 * w) W) ->
   DecoderStage.eval m (x, k) = Err RuntimeError).
Proof.
  intros (Hd & Hu & Hs) Hx Hk Hh Hw HH HW. unfold DecoderStage.eval.
  destruct (Decoder_eval_shape _ _ _ _ _ _ Hd Hx Hh Hw) as (y1 & -> & Hy1).
  cbn [bind Monad_result].
  destruct (Upsampling_eval_shape _ _ _ _ _ _ _ Hu Hy1 Hh Hw) as (y2 & -> & Hy2).
  cbn [bind Monad_result].
  destruct (CovSepBlock_eval_shape _ _ _ _ _ _ _ _ _ _ Hs Hk)
    as (y3 & -> & Hy3 & _); try lia.
  rewrite !out_size_3_1_1 in Hy3 by lia.
  cbn [bind Monad_result].
  apply (tensor_add_skip y2 (tensor_relu y3) B cout (2 * h) (2 * w) H W);
    [exact Hy2 | rewrite tensor_relu_shape; exact Hy3 | lia | lia].
Qed.

Lemma sizes_ok_fits16 (n : nat) : 0 < n -> (sizes_ok n <-> fits16 n).
Proof.
  intros Hn. unfold sizes_ok, fits16, compat, half_up. cbv zeta. lia.
Qed.

Lemma sizes_ok_out (n : nat) :
  0 < n ->
  2 * (2 * (2 * (2 * half_up (half_up (half_up (half_up n)))))) =
  16 * ((n + 15) / 16).
Proof. intros Hn. unfold half_up. lia. Qed.

Lemma stage_dec (a b c d : nat) :
  {compat a b /\ compat c d} + {~ (compat a b /\ compat c d)}.
Proof.
  destruct (compat_dec a b); [|right; tauto].
  destruct (compat_dec c d); [left; tauto | right; tauto].
Qed.

(** Past one decoder stage: it raises and so does the network, or it
    succeeds with the doubled size. *)
Ltac decoder_stage Hd Hin Hskip y Ey Hy :=
  let Hok := fresh "Hok" in
  let Herr := fresh "Herr" in
  let Hcond := fresh "Hcond" in
  destruct (DecoderStage_eval_any _ _ _ _ _ _ _ _ _ _ _ Hd Hin Hskip)
    as [Hok Herr];
    [ unfold half_up; lia .. | ];
  match type of Hok with
  | compat ?a1 ?b1 /\ compat ?a2 ?b2 -> _ =>
      destruct (stage_dec a1 b1 a2 b2) as [Hcond|Hcond];
      [ destruct (Hok Hcond) as (y & Ey & Hy); clear Hok Herr
      | split;
        [ intros [? ?]; exfalso; apply Hcond;
          unfold sizes_ok in *; cbv zeta in *; tauto
        | intros _; rewrite (Herr Hcond); reflexivity ] ]
  end.

(** The network on an image of any positive size: the encoder halves the
    size four times, rounding up, and every skip connection must fit. *)
Lemma SimpleNet_eval_any (m : SimpleNet.t) (t : Tensor) (B H W : nat) :
  SimpleNet_built m ->
  shape t = mkShape B 4 H W ->
  0 < H -> 0 < W ->
  (sizes_ok H /\ sizes_ok W ->
   exists out,
     SimpleNet.eval m t = Ok out /\
     shape out =
       mkShape B 4
         (2 * (2 * (2 * (2 * half_up (half_up (half_up (half_up H)))))))
         (2 * (2 * (2 * (2 * half_up (half_up (half_up (half_up W)))))))) /\
  (~ (sizes_ok H /\ sizes_ok W) -> SimpleNet.eval m t = Err RuntimeError).
Proof.
  intros (Hc & He1 & He2 & He3 & He4 & Hd1 & Hd2 & Hd3 & Hd4 &
          d & c & Hout & Hd & Hcv) Hx HH HW.
  unfold SimpleNet.eval.
  rewrite (check_channels_Ok _ _ _ _ _ Hx). cbn [bind Monad_result].
  rewrite (Conv2d_apply_Ok _ _ _ _ _ _ _ _ _ _ Hc Hx) by lia.
  cbn [bind Monad_result]. cbv zeta.
  rewrite !out_size_3_1_1 by lia.
  match goal with
  | |- context [check_channels (tensor_relu ?p) 16] =>
      set (pre := tensor_relu p)
  end.
  assert (Hpre : shape pre = mkShape B 16 H W) by reflexivity.
  clearbody pre.
  rewrite (check_channels_Ok _ _ _ _ _ Hpre). cbn [bind Monad_result].
  destruct (EncoderStage_eval_any _ _ _ _ _ _ _ _ He1 Hpre HH HW)
    as (first & -> & Hfirst).
  cbn [bind Monad_result].
  rewrite (check_channels_Ok _ _ _ _ _ Hfirst). cbn [bind Monad_result].
  destruct (EncoderStage_eval_any _ _ _ _ _ _ _ _ He2 Hfirst)
    as (second & -> & Hsecond); [unfold half_up; lia ..|].
  cbn [bind Monad_result].
  rewrite (check_channels_Ok _ _ _ _ _ Hsecond). cbn [bind Monad_result].
  destruct (EncoderStage_eval_any _ _ _ _ _ _ _ _ He3 Hsecond)
    as (third & -> & Hthird); [unfold half_up; lia ..|].
  cbn [bind Monad_result].
  rewrite (check_channels_Ok _ _ _ _ _ Hthird). cbn [bind Monad_result].
  destruct (EncoderStage_eval_any _ _ _ _ _ _ _ _ He4 Hthird)
    as (fourth & -> & Hfourth); [unfold half_up; lia ..|].
  cbn [bind Monad_result].
  rewrite (check_channels_Ok _ _ _ _ _ Hfourth). cbn [bind Monad_result].
  decoder_stage Hd1 Hfourth Hthird de1 Ede1 Hde1.
  rewrite Ede1. cbn [bind Monad_result].
  rewrite (check_channels_Ok _ _ _ _ _ Hde1). cbn [bind Monad_result].
  decoder_stage Hd2 Hde1 Hsecond de2 Ede2 Hde2.
  rewrite Ede2. cbn [bind Monad_result].
  rewrite (check_channels_Ok _ _ _ _ _ Hde2). cbn [bind Monad_result].
  decoder_stage Hd3 Hde2 Hfirst de3 Ede3 Hde3.
  rewrite Ede3. cbn [bind Monad_result].
  rewrite (check_channels_Ok _ _ _ _ _ Hde3). cbn [bind Monad_result].
  decoder_stage Hd4 Hde3 Hpre de4 Ede4 Hde4.
  rewrite Ede4. cbn [bind Monad_result].
  rewrite (check_channels_Ok _ _ _ _ _ Hde4). cbn [bind Monad_result].
  rewrite Hout. cbn [Sequential.eval Sequential.layer_eval].
  assert (Hp : 0 < half_up (half_up (half_up (half_up H))) /\
               0 < half_up (half_up (half_up (half_up W))))
    by (split; repeat apply half_up_pos; assumption).
  destruct (Decoder_eval_shape _ _ _ _ _ _ Hd Hde4) as (dout & -> & Hdout);
    try lia.
  cbn [bind Monad_result].
  rewrite (Conv2d_apply_Ok _ _ _ _ _ _ _ _ _ _ Hcv Hdout) by lia.
  cbn [bind Monad_result].
  rewrite !out_size_3_1_1 by lia.
  match goal with
  | |- context [check_channels ?o 4] => set (output := o)
  end.
  assert (Houtput : shape output =
    mkShape B 4
      (2 * (2 * (2 * (2 * half_up (half_up (half_up (half_up H)))))))
      (2 * (2 * (2 * (2 * half_up (half_up (half_up (half_up W))))))))
    by reflexivity.
  clearbody output.
  rewrite (check_channels_Ok _ _ _ _ _ Houtput). cbn [bind Monad_result].
  destruct (tensor_add_skip output t _ _ _ _ _ _ Houtput Hx) as [Hok _];
    [lia | lia |].
  split; [intros _; apply Hok; assumption | intros Hn; exfalso; apply Hn].
  unfold sizes_ok; cbv zeta.
  repeat match goal with H : compat _ _ /\ compat _ _ |- _ => destruct H end.
  tauto.
Qed.

(** ** Reading a tabulated tensor *)

Lemma nth_flat_map_chunks {A : Type} (f : nat -> list A) (m : nat) (d : A) :
  (forall i, length (f i) = m) ->
  forall (n a i j : nat),
    i < n -> j < m ->
    nth (i * m + j) (flat_map f (seq a n)) d = nth j (f (a + i)) d.
Proof.
  intros Hf. induction n as [|n IH]; intros a i j Hi Hj; [lia|].
  cbn [seq flat_map]. destruct i as [|i].
  - rewrite app_nth1 by (rewrite Hf; lia).
    rewrite Nat.add_0_r. reflexivity.
  - rewrite app_nth2 by (rewrite Hf; lia). rewrite Hf.
    replace (S i * m + j - m) with (i * m + j) by lia.
    rewrite IH by lia. f_equal. f_equal. lia.
Qed.

(** Inside its shape, a tabulated tensor holds the tabulated function. *)
Lemma tget_tabulate (s : Shape) f (b c h w : nat) :
  b < sB s -> c < sC s -> h < sH s -> w < sW s ->
  tget (tabulate s f) b c h w = f b c h w.
Proof.
  intros Hb Hc Hh Hw. unfold tget, offset. cbn [shape data tabulate].
  replace (((b * sC s + c) * sH s + h) * sW s + w)
    with (b * (sC s * (sH s * sW s)) + (c * (sH s * sW s) + (h * sW s + w)))
    by lia.
  assert (Hhw : h * sW s + w < sH s * sW s) by nia.
  assert (Hchw : c * (sH s * sW s) + (h * sW s + w) < sC s * (sH s * sW s))
    by nia.
  rewrite (nth_flat_map_chunks _ (sC s * (sH s * sW s))); [| |lia|exact Hchw].
  - rewrite (nth_flat_map_chunks _ (sH s * sW s)); [| |lia|exact Hhw].
    + rewrite (nth_flat_map_chunks _ (sW s)); [| |lia|exact Hw].
      * cbn [Nat.add].
        rewrite (nth_indep _ 0%Z (f b c h 0))
          by (rewrite length_map, length_seq; exact Hw).
        rewrite (map_nth (fun w0 => f b c h w0) (seq 0 (sW s)) 0 w).
        rewrite seq_nth by exact Hw. reflexivity.
      * intros i. rewrite length_map, length_seq. reflexivity.
    + intros i. rewrite (length_flat_map_const _ (sW s)).
      * rewrite length_seq. reflexivity.
      * intros k. rewrite length_map, length_seq. reflexivity.
  - intros i. rewrite (length_flat_map_const _ (sH s * sW s)).
    + rewrite length_seq. reflexivity.
    + intros k. rewrite (length_flat_map_const _ (sW s)).
      * rewrite length_seq. reflexivity.
      * intros k'. rewrite length_map, length_seq. reflexivity.
Qed.


(** ** X1: which image sizes [SimpleNet.forward] accepts *)

(** X1: on a non-empty image with four channels [SimpleNet.forward]
    returns exactly when each of height and width is 1 or a multiple of 16,
    and raises RuntimeError at a skip connection otherwise.  The result has
    height and width rounded up to the next multiple of 16: a side of 1 is
    broadcast and comes back as 16. *)
Theorem X1_forward_accepted_sizes
  (init : Init) (n n' : nat) (m : SimpleNet.t) (s : store) (img : loc)
  (t : Tensor) (B H W : nat) :
  SimpleNet.init init n = (Ok m, n') ->
  s !! img = Some t ->
  shape t = mkShape B 4 H W ->
  0 < H -> 0 < W ->
  (fits16 H /\ fits16 W ->
   exists y out,
     fst (SimpleNet.forward m img s) = Ok y /\
     snd (SimpleNet.forward m img s) !! y = Some out /\
     shape out = mkShape B 4 (16 * ((H + 15) / 16)) (16 * ((W + 15) / 16))) /\
  (~ (fits16 H /\ fits16 W) ->
   fst (SimpleNet.forward m img s) = Err RuntimeError).
Proof.
  intros Hinit Hs Hx HH HW. apply SimpleNet_init_inv in Hinit.
  pose proof (SimpleNet_forward_runs m s img t
                (SimpleNet_built_output_layer m Hinit) Hs) as Hrun.
  destruct (SimpleNet_eval_any m t B H W Hinit Hx HH HW) as [Hok Herr].
  rewrite <- !sizes_ok_fits16 by assumption.
  split.
  - intros Hfit. destruct (Hok Hfit) as (out & E & Hout).
    rewrite E in Hrun. destruct (runs_Ok _ _ _ Hrun) as (y & Ey & Ly).
    exists y, out. repeat split; [exact Ey | exact Ly |].
    rewrite Hout, !sizes_ok_out by assumption. reflexivity.
  - intros Hn. rewrite (Herr Hn) in Hrun. apply (runs_Err _ _ _ Hrun).
Qed.

Lemma X1_forward_accepted_sizes_witness :
  exists m,
    SimpleNet.init init_zero 0 = (Ok m, 114) /\
    (exists y out,
       fst (SimpleNet.forward m 0 [zeros (mkShape 1 4 1 16)]) = Ok y /\
       snd (SimpleNet.forward m 0 [zeros (mkShape 1 4 1 16)]) !! y = Some out /\
       shape out = mkShape 1 4 (16 * ((1 + 15) / 16)) (16 * ((16 + 15) / 16))) /\
    fst (SimpleNet.forward m 0 [zeros (mkShape 1 4 8 16)]) = Err RuntimeError.
Proof.
  eexists; split; [vm_compute; reflexivity|].
  match goal with
  | |- (exists y out, fst (SimpleNet.forward ?m _ _) = _ /\ _) /\ _ =>
      pose proof (X1_forward_accepted_sizes init_zero 0 114 m
                    [zeros (mkShape 1 4 1 16)] 0 (zeros (mkShape 1 4 1 16))
                    1 1 16 ltac:(vm_compute; reflexivity) eq_refl eq_refl
                    ltac:(lia) ltac:(lia)) as [Hok _];
      pose proof (X1_forward_accepted_sizes init_zero 0 114 m
                    [zeros (mkShape 1 4 8 16)] 0 (zeros (mkShape 1 4 8 16))
                    1 8 16 ltac:(vm_compute; reflexivity) eq_refl eq_refl
                    ltac:(lia) ltac:(lia)) as [_ Herr]
  end.
  split.
  - apply Hok. split; [left; reflexivity | right; reflexivity].
  - apply Herr. intros [[E|E] _]; discriminate E.
Defined.

(** ** X2: an image with the wrong channel count *)

Lemma assert_channels_run (s : store) (x : loc) (t : Tensor) (n : nat) :
  s !! x = Some t ->
  assert_channels x n s =
  (if sC (shape t) =? n then Ok tt else Err AssertionError, s).
Proof.
  intros Hs. unfold assert_channels, shape1.
  rewrite bind_Fwd. step_read Hs.
  cbn [ret Monad_Fwd]. unfold assert_.
  destruct (sC (shape t) =? n); reflexivity.
Qed.

(** X2: on an input whose channel count is not 4, [SimpleNet.forward]
    raises AssertionError at its first statement: no layer runs and the
    store is left as it was. *)
Theorem X2_wrong_channel_count_asserts
  (m : SimpleNet.t) (s : store) (img : loc) (t : Tensor) :
  s !! img = Some t ->
  sC (shape t) <> 4 ->
  SimpleNet.forward m img s = (Err AssertionError, s).
Proof.
  intros Hs Hc. unfold SimpleNet.forward.
  rewrite bind_Fwd, (assert_channels_run _ _ _ _ Hs).
  destruct (Nat.eqb_spec (sC (shape t)) 4); [contradiction | reflexivity].
Qed.

Lemma X2_wrong_channel_count_asserts_witness :
  exists m,
    SimpleNet.init init_zero 0 = (Ok m, 114) /\
    SimpleNet.forward m 0 [zeros (mkShape 1 3 16 16)] =
      (Err AssertionError, [zeros (mkShape 1 3 16 16)]).
Proof.
  eexists; split; [vm_compute; reflexivity|].
  apply (X2_wrong_channel_count_asserts _ [zeros (mkShape 1 3 16 16)] 0
           (zeros (mkShape 1 3 16 16)));
    [reflexivity | discriminate].
Defined.

(** ** X3, X4: Decoder *)

Lemma Decoder_eval_any (m : Decoder.t) (cin cout : nat) (x : Tensor)
  (B H W : nat) :
  Decoder_built m cin cout ->
  shape x = mkShape B cin H W -> 0 < H -> 0 < W ->
  match broadcast_dim cout cin with
  | Some c => exists y, Decoder.eval m x = Ok y /\ shape y = mkShape B c H W
  | None => Decoder.eval m x = Err RuntimeError
  end.
Proof.
  intros (H1 & H2) Hx HH HW. unfold Decoder.eval.
  destruct (CovSepBlock_eval_shape _ _ _ _ _ _ _ _ _ _ H1 Hx)
    as (y1 & -> & Hy1 & _); try lia.
  rewrite !out_size_3_1_1 in Hy1 by assumption.
  cbn [bind Monad_result].
  destruct (CovSepBlock_eval_shape _ _ _ _ _ _ (tensor_relu y1) _ _ _ H2 Hy1)
    as (y2 & -> & Hy2 & _); try lia.
  rewrite !out_size_3_1_1 in Hy2 by assumption.
  cbn [bind Monad_result].
  pose proof (tensor_add_outcome y2 x) as Hout.
  rewrite Hy2, Hx in Hout. unfold broadcast_shape in Hout.
  cbn [sB sC sH sW] in Hout. rewrite !broadcast_dim_refl in Hout.
  destruct (broadcast_dim cout cin); exact Hout.
Qed.

Lemma Decoder_init_pos cin cout init n m n' :
  Decoder.init cin cout init n = (Ok m, n') -> 0 < cin /\ 0 < cout.
Proof.
  unfold Decoder.init. intros H. ctor_inv H.
  apply CovSepBlock_init_inv in E, E0. tauto.
Qed.




(** X4: a Decoder(C_in, C_out) adds its input to a tensor of C_out
    channels.  The addition succeeds when C_in = C_out, and also, by
    broadcasting over the channels, when C_in = 1 or C_out = 1; the result
    then has max(C_in, C_out) channels and the input's height and width.
    With two different channel counts above 1 [forward] raises
    RuntimeError, although the constructor accepted them. *)
Theorem X4_decoder_channel_counts
  (cin cout : nat) (init : Init) (n n' : nat) (m : Decoder.t)
  (s : store) (x : loc) (t : Tensor) (B H W : nat) :
  Decoder.init cin cout init n = (Ok m, n') ->
  s !! x = Some t ->
  shape t = mkShape B cin H W -> 0 < H -> 0 < W ->
  (cin = cout \/ cin = 1 \/ cout = 1 ->
   exists y out,
     fst (Decoder.forward m x s) = Ok y /\
     snd (Decoder.forward m x s) !! y = Some out /\
     shape out = mkShape B (Nat.max cin cout) H W) /\
  (cin <> cout -> cin <> 1 -> cout <> 1 ->
   fst (Decoder.forward m x s) = Err RuntimeError).
Proof.
  intros Hinit Hs Hx HH HW.
  destruct (Decoder_init_pos _ _ _ _ _ _ Hinit) as [Pi Po].
  apply Decoder_init_inv in Hinit.
  pose proof (Decoder_forward_runs m s x t Hs) as Hrun.
  pose proof (Decoder_eval_any m cin cout t B H W Hinit Hx HH HW) as Hev.
  unfold broadcast_dim in Hev.
  destruct (Nat.eqb_spec cout cin) as [E|E];
    [|destruct (Nat.eqb_spec cout 1) as [E1|E1];
      [|destruct (Nat.eqb_spec cin 1) as [E2|E2]]].
  - split; [intros _ | intros; congruence].
    destruct Hev as (out & Eo & Ho). rewrite Eo in Hrun.
    destruct (runs_Ok _ _ _ Hrun) as (y & Ey & Ly).
    exists y, out. repeat split; try assumption.
    rewrite Ho. f_equal. lia.
  - split; [intros _ | intros; congruence].
    destruct Hev as (out & Eo & Ho). rewrite Eo in Hrun.
    destruct (runs_Ok _ _ _ Hrun) as (y & Ey & Ly).
    exists y, out. repeat split; try assumption.
    rewrite Ho. f_equal. lia.
  - split; [intros _ | intros; congruence].
    destruct Hev as (out & Eo & Ho). rewrite Eo in Hrun.
    destruct (runs_Ok _ _ _ Hrun) as (y & Ey & Ly).
    exists y, out. repeat split; try assumption.
    rewrite Ho. f_equal. lia.
  - split; [intros [?|[?|?]]; congruence | intros _ _ _].
    rewrite Hev in Hrun. apply (runs_Err _ _ _ Hrun).
Qed.

Lemma X4_decoder_channel_counts_witness :
  (exists m n' y out,
     Decoder.init 1 4 init_zero 0 = (Ok m, n') /\
     fst (Decoder.forward m 0 [zeros (mkShape 1 1 2 2)]) = Ok y /\
     snd (Decoder.forward m 0 [zeros (mkShape 1 1 2 2)]) !! y = Some out /\
     shape out = mkShape 1 (Nat.max 1 4) 2 2) /\
  (exists m n',
     Decoder.init 2 4 init_zero 0 = (Ok m, n') /\
     fst (Decoder.forward m 0 [zeros (mkShape 1 2 2 2)]) = Err RuntimeError).
Proof.
  split.
  - eexists _, _.
    match goal with
    | |- exists y out, Decoder.init 1 4 init_zero 0 = (Ok ?m, ?k) /\ _ =>
        unify k 6;
        assert (E : Decoder.init 1 4 init_zero 0 = (Ok m, 6))
          by (vm_compute; reflexivity);
        destruct (X4_decoder_channel_counts 1 4 init_zero 0 6 m
                    [zeros (mkShape 1 1 2 2)] 0 (zeros (mkShape 1 1 2 2))
                    1 2 2 E eq_refl eq_refl ltac:(lia) ltac:(lia))
          as [Hok _];
        destruct Hok as (y & out & H1 & H2 & H3); [right; left; reflexivity|];
        exists y, out; repeat split; assumption
    end.
  - eexists _, _.
    match goal with
    | |- Decoder.init 2 4 init_zero 0 = (Ok ?m, ?k) /\ _ =>
        unify k 6;
        assert (E : Decoder.init 2 4 init_zero 0 = (Ok m, 6))
          by (vm_compute; reflexivity);
        destruct (X4_decoder_channel_counts 2 4 init_zero 0 6 m
                    [zeros (mkShape 1 2 2 2)] 0 (zeros (mkShape 1 2 2 2))
                    1 2 2 E eq_refl eq_refl ltac:(lia) ltac:(lia))
          as [_ Herr];
        split; [exact E | apply Herr; discriminate]
    end.
Defined.

(** ** X5: DecoderStage *)



(** ** X6: Downsampling on any size; X7: round trip with Upsampling *)

(** X6: on every non-empty input, of even or odd size, the main path and
    the branch path of Downsampling give the same height and width, half
    the input's rounded up; so the addition never broadcasts and never
    fails, and [forward] returns a tensor of shape
    (B, C_out, ceil(H/2), ceil(W/2)). *)
Theorem X6_downsampling_paths_agree
  (cin cout : nat) (init : Init) (n n' : nat) (m : Downsampling.t)
  (s : store) (x : loc) (t : Tensor) (B H W : nat) :
  Downsampling.init cin cout init n = (Ok m, n') ->
  s !! x = Some t ->
  shape t = mkShape B cin H W ->
  0 < H -> 0 < W ->
  exists main branch y out,
    Downsampling.main_path m t = Ok main /\
    Downsampling.branch_path m t = Ok branch /\
    shape main = shape branch /\
    fst (Downsampling.forward m x s) = Ok y /\
    snd (Downsampling.forward m x s) !! y = Some out /\
    shape out = mkShape B cout ((H + 1) / 2) ((W + 1) / 2).
Proof.
  intros Hinit Hs Hx HH HW.
  apply Downsampling_init_inv in Hinit. destruct Hinit as (Hm & _ & _).
  destruct (Downsampling_paths_any _ _ _ _ _ _ _ Hm Hx HH HW)
    as (main & branch & Emain & Hmain & Ebranch & Hbranch).
  unfold half_up in Hmain, Hbranch.
  destruct (tensor_add_shape main branch) as (out & Eout & Hout);
    [congruence|].
  pose proof (Downsampling_forward_runs m s x t Hs) as Hrun.
  rewrite Downsampling_eval_paths, Emain, Ebranch in Hrun.
  cbn [bind Monad_result] in Hrun. rewrite Eout in Hrun.
  destruct (runs_Ok _ _ _ Hrun) as (y & Ey & Ly).
  exists main, branch, y, out.
  repeat split; try assumption; congruence.
Qed.

Lemma X6_downsampling_paths_agree_witness :
  exists m n' main branch y out,
    Downsampling.init 16 64 init_zero 0 = (Ok m, n') /\
    Downsampling.main_path m (zeros (mkShape 1 16 5 3)) = Ok main /\
    Downsampling.branch_path m (zeros (mkShape 1 16 5 3)) = Ok branch /\
    shape main = shape branch /\
    fst (Downsampling.forward m 0 [zeros (mkShape 1 16 5 3)]) = Ok y /\
    snd (Downsampling.forward m 0 [zeros (mkShape 1 16 5 3)]) !! y = Some out /\
    shape out = mkShape 1 64 ((5 + 1) / 2) ((3 + 1) / 2).
Proof.
  eexists _, _.
  match goal with
  | |- exists main branch y out,
         Downsampling.init 16 64 init_zero 0 = (Ok ?m, ?q) /\ _ =>
      unify q 9;
      assert (E : Downsampling.init 16 64 init_zero 0 = (Ok m, 9))
        by (vm_compute; reflexivity);
      destruct (X6_downsampling_paths_agree 16 64 init_zero 0 9 m
                  [zeros (mkShape 1 16 5 3)] 0 (zeros (mkShape 1 16 5 3))
                  1 5 3 E eq_refl eq_refl ltac:(lia) ltac:(lia))
        as (main & branch & y & out & H1 & H2 & H3 & H4 & H5 & H6)
  end.
  exists main, branch, y, out. repeat split; assumption.
Defined.



(** ** X8: Encoder with a projection; X9: EncoderStage on any size *)

Lemma tensor_relu_nonneg (t : Tensor) : nonneg (tensor_relu t).
Proof.
  unfold nonneg, tensor_relu; cbn [data].
  apply Forall_map, Forall_true. intros z. cbn. lia.
Qed.

Lemma Encoder_eval_nonneg (m : Encoder.t) (x y : Tensor) :
  Encoder.eval m x = Ok y -> nonneg y.
Proof.
  unfold Encoder.eval. intros H.
  destruct (match Encoder.proj m with
            | Some p => CovSepBlock.eval p x
            | None => Ok x
            end) as [br|]; [|discriminate].
  cbn [bind Monad_result] in H.
  destruct (CovSepBlock.eval (Encoder.sepconv m) x) as [y1|]; [|discriminate].
  cbn [bind Monad_result] in H.
  destruct (CovSepBlock.eval (Encoder.sepconv2 m) (tensor_relu y1)) as [y2|];
    [|discriminate].
  cbn [bind Monad_result] in H.
  destruct (tensor_iadd y2 br) as [y3|]; [|discriminate].
  cbn [bind Monad_result] in H.
  injection H as <-. apply tensor_relu_nonneg.
Qed.

Lemma repeat_eval_nonneg (e : Encoder.t) (n : nat) :
  forall x y, EncoderStage.repeat_eval (S n) e x = Ok y -> nonneg y.
Proof.
  induction n as [|n IH]; intros x y H.
  - cbn [EncoderStage.repeat_eval] in H.
    destruct (Encoder.eval e x) as [z|] eqn:E; [|discriminate].
    cbn [bind Monad_result] in H. injection H as <-.
    apply (Encoder_eval_nonneg _ _ _ E).
  - change (EncoderStage.repeat_eval (S (S n)) e x)
      with (z <- Encoder.eval e x ;; EncoderStage.repeat_eval (S n) e z) in H.
    destruct (Encoder.eval e x) as [z|]; [|discriminate].
    cbn [bind Monad_result] in H. apply (IH _ _ H).
Qed.

(** X8: an Encoder constructed with any channel counts has a projection
    block exactly when C_in and C_out differ.  On every non-empty input
    with C_in channels it returns a tensor of shape (B, C_out, H, W), so
    the channel count changes and height and width do not; no entry of
    the result is negative, and the input tensor is unchanged. *)
Theorem X8_encoder_projection_shape
  (cin cout : nat) (init : Init) (n n' : nat) (m : Encoder.t)
  (s : store) (x : loc) (t : Tensor) (B H W : nat) :
  Encoder.init cin cout init n = (Ok m, n') ->
  s !! x = Some t ->
  shape t = mkShape B cin H W ->
  0 < H -> 0 < W ->
  (Encoder.proj m = None <-> cin = cout) /\
  exists y out,
    fst (Encoder.forward m x s) = Ok y /\
    snd (Encoder.forward m x s) !! y = Some out /\
    shape out = mkShape B cout H W /\
    nonneg out /\
    snd (Encoder.forward m x s) !! x = Some t.
Proof.
  intros Hinit Hs Hx HH HW.
  apply Encoder_init_inv in Hinit. destruct Hinit as (Hm & _ & _).
  split.
  - destruct Hm as (_ & _ & Hp).
    destruct (Encoder.proj m); [|tauto].
    split; [discriminate | tauto].
  - destruct (Encoder_eval_shape _ _ _ _ _ _ _ Hm Hx HH HW) as (out & E & Ho).
    pose proof (Encoder_forward_runs m s x t Hs) as Hrun.
    rewrite E in Hrun.
    destruct (runs_Ok _ _ _ Hrun) as (y & Ey & Ly).
    exists y, out.
    split; [exact Ey|]. split; [exact Ly|]. split; [exact Ho|].
    split; [apply (Encoder_eval_nonneg _ _ _ E)|].
    apply (runs_frame _ _ _ Hrun). exact Hs.
Qed.

Lemma X8_encoder_projection_shape_witness :
  exists m n' y out,
    Encoder.init 3 8 init_index 0 = (Ok m, n') /\
    (Encoder.proj m = None <-> 3 = 8) /\
    fst (Encoder.forward m 0 [ones (mkShape 1 3 2 2)]) = Ok y /\
    snd (Encoder.forward m 0 [ones (mkShape 1 3 2 2)]) !! y = Some out /\
    shape out = mkShape 1 8 2 2 /\
    nonneg out /\
    snd (Encoder.forward m 0 [ones (mkShape 1 3 2 2)]) !! 0
      = Some (ones (mkShape 1 3 2 2)).
Proof.
  eexists _, _.
  match goal with
  | |- exists y out, Encoder.init 3 8 init_index 0 = (Ok ?m, ?q) /\ _ =>
      unify q 9;
      assert (E : Encoder.init 3 8 init_index 0 = (Ok m, 9))
        by (vm_compute; reflexivity);
      destruct (X8_encoder_projection_shape 3 8 init_index 0 9 m
                  [ones (mkShape 1 3 2 2)] 0 (ones (mkShape 1 3 2 2))
                  1 2 2 E eq_refl eq_refl ltac:(lia) ltac:(lia))
        as (Hp & y & out & H1 & H2 & H3 & H4 & H5)
  end.
  exists y, out. repeat split; try assumption; apply Hp.
Defined.

(** X9: the Encoder that an EncoderStage constructs never has a
    projection, whatever the stage's channel counts.  For every repetition
    count N and every non-empty input, of even or odd size, the stage
    returns a tensor of shape (B, C_out, ceil(H/2), ceil(W/2)); with
    N >= 1 no entry of the result is negative; the input tensor is
    unchanged. *)
Theorem X9_encoder_stage_any_size
  (cin cout N : nat) (init : Init) (n n' : nat) (m : EncoderStage.t)
  (s : store) (x : loc) (t : Tensor) (B H W : nat) :
  EncoderStage.init cin cout N init n = (Ok m, n') ->
  s !! x = Some t ->
  shape t = mkShape B cin H W ->
  0 < H -> 0 < W ->
  Encoder.proj (EncoderStage.encoder m) = None /\
  exists y out,
    fst (EncoderStage.forward m x s) = Ok y /\
    snd (EncoderStage.forward m x s) !! y = Some out /\
    shape out = mkShape B cout ((H + 1) / 2) ((W + 1) / 2) /\
    (0 < N -> nonneg out) /\
    snd (EncoderStage.forward m x s) !! x = Some t.
Proof.
  intros Hinit Hs Hx HH HW.
  apply EncoderStage_init_inv in Hinit.
  split.
  - destruct Hinit as ((_ & _ & Hp) & _ & _).
    destruct (Encoder.proj (EncoderStage.encoder m)) as [p|];
      [destruct Hp as [Hp _]; contradiction | reflexivity].
  - destruct (EncoderStage_eval_any _ _ _ _ _ _ _ _ Hinit Hx HH HW)
      as (out & E & Ho).
    pose proof (EncoderStage_forward_runs m s x t Hs) as Hrun.
    rewrite E in Hrun.
    destruct (runs_Ok _ _ _ Hrun) as (y & Ey & Ly).
    exists y, out.
    split; [exact Ey|]. split; [exact Ly|]. split; [exact Ho|].
    split; [|apply (runs_frame _ _ _ Hrun); exact Hs].
    intros HN. destruct Hinit as (_ & _ & Hnum).
    unfold EncoderStage.eval in E.
    destruct (Downsampling.eval (EncoderStage.downsampling m) t) as [z|];
      [|discriminate].
    cbn [bind Monad_result] in E. rewrite Hnum in E.
    destruct N as [|N]; [lia|].
    apply (repeat_eval_nonneg _ _ _ _ E).
Qed.

Lemma X9_encoder_stage_any_size_witness :
  exists m n' y out,
    EncoderStage.init 2 4 2 init_index 0 = (Ok m, n') /\
    Encoder.proj (EncoderStage.encoder m) = None /\
    fst (EncoderStage.forward m 0 [ones (mkShape 1 2 3 1)]) = Ok y /\
    snd (EncoderStage.forward m 0 [ones (mkShape 1 2 3 1)]) !! y = Some out /\
    shape out = mkShape 1 4 ((3 + 1) / 2) ((1 + 1) / 2) /\
    nonneg out /\
    snd (EncoderStage.forward m 0 [ones (mkShape 1 2 3 1)]) !! 0
      = Some (ones (mkShape 1 2 3 1)).
Proof.
  eexists _, _.
  match goal with
  | |- exists y out, EncoderStage.init 2 4 2 init_index 0 = (Ok ?m, ?q) /\ _ =>
      unify q 15;
      assert (E : EncoderStage.init 2 4 2 init_index 0 = (Ok m, 15))
        by (vm_compute; reflexivity);
      destruct (X9_encoder_stage_any_size 2 4 2 init_index 0 15 m
                  [ones (mkShape 1 2 3 1)] 0 (ones (mkShape 1 2 3 1))
                  1 3 1 E eq_refl eq_refl ltac:(lia) ltac:(lia))
        as (Hp & y & out & H1 & H2 & H3 & H4 & H5)
  end.
  exists y, out. repeat split; try assumption. apply H4. lia.
Defined.

(** ** X10: the parameters of the network *)


(** ** X11, X12: what the two convolutions of a separable block read *)

Lemma sumn_ext (n : nat) (f g : nat -> Z) :
  (forall i, i < n -> f i = g i) -> sumn n f = sumn n g.
Proof.
  intros H. unfold sumn. f_equal. apply map_ext_in.
  intros i Hi. apply in_seq in Hi. apply H. lia.
Qed.

Lemma sumn_1 (f : nat -> Z) : sumn 1 f = f 0%nat.
Proof. unfold sumn; cbn. lia. Qed.

Lemma sumn_2 (f : nat -> Z) : sumn 2 f = (f 0%nat + f 1%nat)%Z.
Proof. unfold sumn; cbn. lia. Qed.

Lemma Conv2d_apply_Ok_form (c : Conv2d.t) (x y : Tensor) :
  Conv2d.apply c x = Ok y ->
  sC (shape x) = Conv2d.in_channels c /\
  y = tabulate
        (mkShape (sB (shape x)) (Conv2d.out_channels c)
           (Conv2d.out_size (sH (shape x)) (Conv2d.kernel_size c)
              (Conv2d.stride c) (Conv2d.padding c))
           (Conv2d.out_size (sW (shape x)) (Conv2d.kernel_size c)
              (Conv2d.stride c) (Conv2d.padding c)))
        (Conv2d.entry c x).
Proof.
  unfold Conv2d.apply.
  destruct (Nat.eqb_spec (sC (shape x)) (Conv2d.in_channels c));
    [|discriminate]. cbn [negb].
  destruct (Conv2d.stride c =? 0); [discriminate|].
  destruct ((sH (shape x) + 2 * Conv2d.padding c <? Conv2d.kernel_size c)
            || (sW (shape x) + 2 * Conv2d.padding c <? Conv2d.kernel_size c));
    [discriminate|].
  destruct (spatially_empty (shape x)); [discriminate|].
  intros [= <-]. auto.
Qed.

Lemma DepthwiseConv_inv cin k s p init n c n' :
  DepthwiseConv cin k s p init n = (Ok c, n') ->
  Conv2d_built c cin cin k s p /\ Conv2d.groups c = cin /\
  Conv2d.bias c = None /\ 0 < cin.
Proof.
  unfold DepthwiseConv, Conv2d.init.
  destruct (Nat.eqb_spec cin 0) as [|Hc]; [discriminate|].
  destruct (negb (cin mod cin =? 0)); [discriminate|].
  intros H. ctor_inv H.
  apply ret_Ctor_Ok in E0. destruct E0 as [<- <-].
  unfold Conv2d_built; cbn. repeat split; lia.
Qed.


Lemma tget_pad_same_channel (x y : Tensor) (p b c h w : nat) :
  shape x = shape y -> same_channel c x y -> b < sB (shape x) ->
  tget_pad x p b c h w = tget_pad y p b c h w.
Proof.
  intros Hs Hc Hb. unfold tget_pad. rewrite <- Hs.
  destruct (Nat.leb_spec p h); cbn [andb]; [|reflexivity].
  destruct (Nat.ltb_spec (h - p) (sH (shape x))); cbn [andb]; [|reflexivity].
  destruct (Nat.leb_spec p w); cbn [andb]; [|reflexivity].
  destruct (Nat.ltb_spec (w - p) (sW (shape x))); [|reflexivity].
  apply Hc; assumption.
Qed.

(** X11: the convolution that [DepthwiseConv] builds does not mix
    channels.  When two inputs of one shape agree on channel [ch], the two
    outputs have one shape and agree on channel [ch], whatever the other
    channels hold. *)
Theorem X11_depthwise_keeps_channels_apart
  (cin k st p : nat) (init : Init) (n n' : nat) (c : Conv2d.t)
  (x y ox oy : Tensor) (ch : nat) :
  DepthwiseConv cin k st p init n = (Ok c, n') ->
  shape x = shape y ->
  ch < cin ->
  same_channel ch x y ->
  Conv2d.apply c x = Ok ox ->
  Conv2d.apply c y = Ok oy ->
  shape ox = shape oy /\ same_channel ch ox oy.
Proof.
  intros Hinit Hs Hch Hsame Ex Ey.
  apply DepthwiseConv_inv in Hinit.
  destruct Hinit as ((Hi & Ho & _) & Hg & Hb & Hc).
  apply Conv2d_apply_Ok_form in Ex, Ey.
  destruct Ex as [_ ->], Ey as [_ ->]. rewrite <- Hs.
  split; [reflexivity|].
  intros b h w Hb' Hh Hw. cbn [shape tabulate sB sH sW] in Hb', Hh, Hw.
  rewrite !tget_tabulate by (cbn [sB sC sH sW]; lia).
  unfold Conv2d.entry, Conv2d.bias_at. rewrite Hb, Hi, Ho, Hg.
  rewrite Nat.div_same by lia. rewrite Nat.div_1_r, !sumn_1.
  f_equal. apply sumn_ext. intros kh _. apply sumn_ext. intros kw _.
  f_equal. replace (ch * 1 + 0) with ch by lia.
  apply tget_pad_same_channel; assumption.
Qed.

Lemma X11_depthwise_keeps_channels_apart_witness :
  exists c n' ox oy,
    DepthwiseConv 2 3 1 1 init_index 0 = (Ok c, n') /\
    Conv2d.apply c (tabulate (mkShape 1 2 2 2)
                      (fun _ ch _ _ => Z.of_nat ch)) = Ok ox /\
    Conv2d.apply c (tabulate (mkShape 1 2 2 2)
                      (fun _ ch h _ => Z.of_nat (ch * (5 + h)))) = Ok oy /\
    shape ox = shape oy /\ same_channel 0 ox oy.
Proof.
  eexists _, _, _, _.
  match goal with
  | |- DepthwiseConv 2 3 1 1 init_index 0 = (Ok ?c, ?q) /\
       Conv2d.apply _ ?x = Ok ?ox /\ Conv2d.apply _ ?y = Ok ?oy /\ _ =>
      unify q 1;
      assert (E : DepthwiseConv 2 3 1 1 init_index 0 = (Ok c, 1))
        by (vm_compute; reflexivity);
      assert (Ex : Conv2d.apply c x = Ok ox) by (vm_compute; reflexivity);
      assert (Ey : Conv2d.apply c y = Ok oy) by (vm_compute; reflexivity);
      assert (Hsame : same_channel 0 x y)
        by (intros b h w Hb Hh Hw; cbn [shape tabulate sB sH sW] in Hb, Hh, Hw;
            rewrite !tget_tabulate by (cbn [sB sC sH sW]; lia); reflexivity);
      pose proof (X11_depthwise_keeps_channels_apart 2 3 1 1 init_index 0 1 c
                    x y ox oy 0 E eq_refl ltac:(lia) Hsame Ex Ey) as [H1 H2]
  end.
  repeat split; assumption.
Defined.



(** ** X13: a wrong channel count at a separable block *)

(** X13: a separable block constructed for C_in channels raises
    RuntimeError on an input with another channel count, and it fails in
    its first convolution: no tensor is allocated and the store is left
    as it was. *)
Theorem X13_separable_block_rejects_channels
  (cin cout k st p : nat) (init : Init) (n n' : nat) (m : CovSepBlock.t)
  (s : store) (x : loc) (t : Tensor) :
  CovSepBlock.init cin cout k st p init n = (Ok m, n') ->
  s !! x = Some t ->
  sC (shape t) <> cin ->
  CovSepBlock.forward m x s = (Err RuntimeError, s).
Proof.
  intros Hinit Hs Hc.
  apply CovSepBlock_init_inv in Hinit.
  destruct Hinit as [[(Hi & _) _] _].
  unfold CovSepBlock.forward, Conv2d.forward.
  rewrite bind_Fwd. step_read Hs.
  unfold Conv2d.apply. rewrite Hi.
  destruct (Nat.eqb_spec (sC (shape t)) cin); [contradiction|].
  reflexivity.
Qed.

Lemma X13_separable_block_rejects_channels_witness :
  exists m n',
    CovSepBlock.init 4 8 3 1 1 init_index 0 = (Ok m, n') /\
    CovSepBlock.forward m 0 [ones (mkShape 1 3 5 5)]
      = (Err RuntimeError, [ones (mkShape 1 3 5 5)]).
Proof.
  eexists _, _.
  match goal with
  | |- CovSepBlock.init 4 8 3 1 1 init_index 0 = (Ok ?m, ?q) /\ _ =>
      unify q 3;
      assert (E : CovSepBlock.init 4 8 3 1 1 init_index 0 = (Ok m, 3))
        by (vm_compute; reflexivity);
      pose proof (X13_separable_block_rejects_channels 4 8 3 1 1 init_index
                    0 3 m [ones (mkShape 1 3 5 5)] 0 (ones (mkShape 1 3 5 5))
                    E eq_refl ltac:(cbn; lia)) as H
  end.
  split; [exact E | exact H].
Defined.

(** ** X14: the entries of an upsampled tensor *)

Lemma ConvTranspose2d_apply_Ok_form (c : ConvTranspose2d.t) (x y : Tensor) :
  ConvTranspose2d.apply c x = Ok y ->
  sC (shape x) = ConvTranspose2d.in_channels c /\
  y = tabulate
        (mkShape (sB (shape x)) (ConvTranspose2d.out_channels c)
           (ConvTranspose2d.out_size (sH (shape x))
              (ConvTranspose2d.kernel_size c) (ConvTranspose2d.stride c))
           (ConvTranspose2d.out_size (sW (shape x))
              (ConvTranspose2d.kernel_size c) (ConvTranspose2d.stride c)))
        (ConvTranspose2d.entry c x).
Proof.
  unfold ConvTranspose2d.apply.
  destruct (Nat.eqb_spec (sC (shape x)) (ConvTranspose2d.in_channels c));
    [|discriminate]. cbn [negb].
  destruct (ConvTranspose2d.stride c =? 0); [discriminate|].
  destruct (spatially_empty (shape x)); [discriminate|].
  destruct ((sH (shape x) * ConvTranspose2d.stride c
               + ConvTranspose2d.kernel_size c <? ConvTranspose2d.stride c)
            || (sW (shape x) * ConvTranspose2d.stride c
                  + ConvTranspose2d.kernel_size c <? ConvTranspose2d.stride c));
    [discriminate|].
  intros [= <-]. auto.
Qed.

(** With kernel 2 and stride 2 the windows do not overlap: output position
    [(i, j)] is reached from input position [(i / 2, j / 2)] only, through
    kernel entry [(i mod 2, j mod 2)]. *)
Lemma tap_2 (x : Tensor) (b ci i j kh kw : nat) :
  i < 2 * sH (shape x) -> j < 2 * sW (shape x) -> kh < 2 -> kw < 2 ->
  ConvTranspose2d.tap x 2 b ci i j kh kw =
  if (kh =? i mod 2) && (kw =? j mod 2)
  then tget x b ci (i / 2) (j / 2) else 0%Z.
Proof.
  intros Hi Hj Hkh Hkw. unfold ConvTranspose2d.tap.
  destruct (Nat.leb_spec kh i), (Nat.eqb_spec ((i - kh) mod 2) 0),
    (Nat.ltb_spec ((i - kh) / 2) (sH (shape x))),
    (Nat.leb_spec kw j), (Nat.eqb_spec ((j - kw) mod 2) 0),
    (Nat.ltb_spec ((j - kw) / 2) (sW (shape x))),
    (Nat.eqb_spec kh (i mod 2)), (Nat.eqb_spec kw (j mod 2));
    cbn [andb]; try reflexivity; try lia.
  f_equal; lia.
Qed.

(** X14: the entries of the tensor that Upsampling returns.  The entry at
    row [i] and column [j] of output channel [co] is the bias of [co] plus
    the sum, over the input channels, of the input entry at
    [(i / 2, j / 2)] times the kernel entry at [(i mod 2, j mod 2)]: each
    output pixel is computed from one input pixel. *)
Theorem X14_upsampling_entry
  (cin cout : nat) (init : Init) (n n' : nat) (m : Upsampling.t)
  (x out : Tensor) (b co i j : nat) :
  Upsampling.init cin cout 2 init n = (Ok m, n') ->
  Upsampling.eval m x = Ok out ->
  b < sB (shape x) -> co < cout ->
  i < 2 * sH (shape x) -> j < 2 * sW (shape x) ->
  tget out b co i j =
  (pdata (ConvTranspose2d.bias (Upsampling.upsample m)) co 0 0 0 +
   sumn cin (fun ci =>
     tget x b ci (i / 2) (j / 2) *
     pdata (ConvTranspose2d.weight (Upsampling.upsample m))
           ci co (i mod 2) (j mod 2)))%Z.
Proof.
  intros Hinit E Hb Hco Hi Hj.
  apply Upsampling_init_inv in Hinit. destruct Hinit as (Hin & Ho & Hk & Hs).
  unfold Upsampling.eval in E. apply ConvTranspose2d_apply_Ok_form in E.
  destruct E as [_ ->]. rewrite Ho, Hk, Hs.
  unfold ConvTranspose2d.out_size.
  rewrite tget_tabulate by (cbn [sB sC sH sW]; lia).
  unfold ConvTranspose2d.entry. rewrite Hin, Hk, Hs.
  f_equal. apply sumn_ext. intros ci _.
  rewrite !sumn_2, !tap_2 by lia.
  assert (Hi2 : i mod 2 = 0 \/ i mod 2 = 1) by lia.
  assert (Hj2 : j mod 2 = 0 \/ j mod 2 = 1) by lia.
  destruct Hi2 as [-> | ->], Hj2 as [-> | ->]; cbn [Nat.eqb andb]; lia.
Qed.

Lemma X14_upsampling_entry_witness :
  exists m n' out,
    Upsampling.init 2 1 2 init_index 0 = (Ok m, n') /\
    Upsampling.eval m (ones (mkShape 1 2 1 2)) = Ok out /\
    tget out 0 0 1 2 =
    (pdata (ConvTranspose2d.bias (Upsampling.upsample m)) 0 0 0 0 +
     sumn 2 (fun ci =>
       tget (ones (mkShape 1 2 1 2)) 0 ci (1 / 2) (2 / 2) *
       pdata (ConvTranspose2d.weight (Upsampling.upsample m))
             ci 0 (1 mod 2) (2 mod 2)))%Z.
Proof.
  eexists _, _, _.
  match goal with
  | |- Upsampling.init 2 1 2 init_index 0 = (Ok ?m, ?q) /\
       Upsampling.eval _ ?x = Ok ?out /\ _ =>
      unify q 2;
      assert (E : Upsampling.init 2 1 2 init_index 0 = (Ok m, 2))
        by (vm_compute; reflexivity);
      assert (Ex : Upsampling.eval m x = Ok out) by (vm_compute; reflexivity);
      assert (Hb : 0 < sB (shape x)) by (cbn; lia);
      assert (Hi : 1 < 2 * sH (shape x)) by (cbn; lia);
      assert (Hj : 2 < 2 * sW (shape x)) by (cbn; lia);
      pose proof (X14_upsampling_entry 2 1 init_index 0 2 m x out 0 0 1 2
                    E Ex Hb ltac:(lia) Hi Hj) as H
  end.
  split; [exact E|]. split; [exact Ex | exact H].
Defined.
